(** * license-project/generator: a shallow embedding of [index.js]

    The script reads a license file, interviews the operator, derives a
    package name, renders a module and a manifest, writes four files into
    a fresh directory and records them as the root commit of a new
    repository with a remote called [origin].

    Strings are byte strings: a JavaScript string is represented by its
    UTF-8 encoding, which is what [Buffer.toString('utf-8')] decodes and
    what [fs.writeFile] writes back.  The asynchronous body of [main] is a
    state-and-exception computation over a [World] holding the file
    system, the repositories and a log of the calls made to the outside;
    every [await] of a library call is a [bind]; [start] is the script
    from its first line, the bootstrap of lines 21-28 included.  The libraries ([fs],
    [path], [inquirer], [@babel/core], [nodegit]) are modelled as far as
    [main] depends on them: the operator and the compiler are functions
    given with the environment, file and repository operations fail where
    the state decides it (a missing file, a directory in the place of a
    file, an existing or an orphaned directory, data that the release of
    Node.js at hand does not write, an author that libgit2 does not take,
    a born branch, a remote already there), and failures of the machine
    (disk, permissions, limits on the length of names) are left out, as is
    an operator who walks away from the interview.  Paths are put together by
    concatenation, which is what [path.join] yields for segments that are
    already normalised. *)

From Stdlib Require Import String Ascii List ZArith Bool Lia.
From stdpp Require Import base option gmap strings list.

Open Scope string_scope.

(** ** Characters that Rocq string literals cannot spell directly *)

Definition dquote : string := String "034"%char EmptyString.
Definition nl : string := String "010"%char EmptyString.

(** [lines.join("\n")]: the rows of a template literal. *)
Fixpoint unlines (rows : list string) : string :=
  match rows with
  | [] => EmptyString
  | [r] => r
  | r :: rest => r ++ nl ++ unlines rest
  end.

(** ** JavaScript values and coercions *)

Inductive error : Type :=
| ENOENT (syscall path : string)
| EEXIST (syscall path : string)
| EISDIR (syscall path : string)
| ENOTDIR (syscall path : string)
| TypeError (msg : string)
| GitError (msg : string)
| BabelError (msg : string).

(** A promise, observed once it has settled. *)
Inductive Promise (A : Type) : Type :=
| Resolved (a : A)
| Rejected (e : error).
Arguments Resolved {A} a.
Arguments Rejected {A} e.

(** The contents of a file as [fs.readFile] hands them over. *)
Record Buffer : Type := { bytes : string }.

(** What [@babel/core] resolves [transformAsync] with: a plain object, the
    compiled text being its [code] property. *)
Record BabelFileResult : Type := {
  code : string;
  map : option string;
}.

(** The [toString] method / [ToString] coercion of the values the script
    handles.  A property that was never set reads as [undefined], which is
    [None] here. *)
Class ToString (A : Type) := toString : A -> string.

#[global] Instance string_ToString : ToString string := fun s => s.
#[global] Instance undefined_ToString : ToString (option string) :=
  fun v => match v with Some s => s | None => "undefined" end.
(** [Buffer.prototype.toString('utf-8')] of a buffer that holds well-formed
    UTF-8, which the decoder hands on byte by byte (ill-formed sequences
    would come out as U+FFFD). *)
#[global] Instance Buffer_ToString : ToString Buffer := bytes.
(** [Object.prototype.toString] with [Symbol.toStringTag] = "Promise". *)
#[global] Instance Promise_ToString {A} : ToString (Promise A) :=
  fun _ => "[object Promise]".
(** [Object.prototype.toString] on a plain object. *)
#[global] Instance BabelFileResult_ToString : ToString BabelFileResult :=
  fun _ => "[object Object]".

(** What [fs.writeFile] takes as data on every release of Node.js: a
    string or a buffer.  Any other value is written as ['' + data] by the
    releases before 14 and rejected by the later ones. *)
Class Data (A : Type) := plain : A -> bool.

#[global] Instance string_Data : Data string := fun _ => true.
#[global] Instance BabelFileResult_Data : Data BabelFileResult :=
  fun _ => false.

(** ** JSON.stringify *)

Module JSON.

Definition hex (n : N) : string :=
  String (ascii_of_N (if (n <? 10)%N then 48 + n else 87 + n)) EmptyString.

(** One code unit of [QuoteJSONString]. *)
Definition escape (c : ascii) : string :=
  match N_of_ascii c with
  | 8%N => "\b"
  | 9%N => "\t"
  | 10%N => "\n"
  | 12%N => "\f"
  | 13%N => "\r"
  | 34%N => "\" ++ dquote
  | 92%N => "\\"
  | n => if (n <? 32)%N
         then "\u00" ++ hex (n / 16) ++ hex (n mod 16)
         else String c EmptyString
  end.

Fixpoint escape_all (s : string) : string :=
  match s with
  | EmptyString => EmptyString
  | String c rest => escape c ++ escape_all rest
  end.

Definition quote (s : string) : string := dquote ++ escape_all s ++ dquote.

(** [JSON.stringify(v)] for [v] a string or [undefined], as interpolated
    into a template literal. *)
Definition stringify_string (v : option string) : string :=
  match v with
  | Some s => quote s
  | None => "undefined"
  end.

#[local] Set Warnings "-register-all".
Inductive value : Type :=
| Str (s : string)
| Arr (items : list value)
| Obj (props : list (string * value)).

Fixpoint spaces (n : nat) : string :=
  match n with
  | O => EmptyString
  | S k => " " ++ spaces k
  end.

(** [SerializeJSONProperty] with a gap of [gap] spaces; [indent] is the
    current indentation.  With an empty gap nothing is broken into lines. *)
Fixpoint serialize (gap indent : nat) (v : value) : string :=
  let stepback := spaces indent in
  let inner := spaces (indent + gap) in
  let pretty := negb (gap =? 0)%nat in
  let opening := if pretty then nl ++ inner else EmptyString in
  let separator := if pretty then "," ++ nl ++ inner else "," in
  let closing := if pretty then nl ++ stepback else EmptyString in
  let colon := if pretty then ": " else ":" in
  match v with
  | Str s => quote s
  | Arr items =>
      match items with
      | [] => "[]"
      | _ =>
          "[" ++ opening
          ++ (fix elements (l : list value) : string :=
                match l with
                | [] => EmptyString
                | [x] => serialize gap (indent + gap) x
                | x :: rest =>
                    serialize gap (indent + gap) x
                    ++ separator ++ elements rest
                end) items
          ++ closing ++ "]"
      end
  | Obj props =>
      match props with
      | [] => "{}"
      | _ =>
          "{" ++ opening
          ++ (fix members (l : list (string * value)) : string :=
                match l with
                | [] => EmptyString
                | [(k, x)] =>
                    quote k ++ colon ++ serialize gap (indent + gap) x
                | (k, x) :: rest =>
                    quote k ++ colon ++ serialize gap (indent + gap) x
                    ++ separator ++ members rest
                end) props
          ++ closing ++ "}"
      end
  end.

(** [JSON.stringify(v, null, space)] for a number [space]: the gap is at
    most ten spaces. *)
Definition stringify (v : value) (space : nat) : string :=
  serialize (space `min` 10) 0 v.

End JSON.

(** ** The regular expression [/\s/g] *)

(** Does [s] begin with the UTF-8 encoding of a character of the class
    [\s]: TAB, LF, VT, FF, CR, SPACE, U+00A0, U+1680, U+2000..U+200A,
    U+2028, U+2029, U+202F, U+205F, U+3000 or U+FEFF? *)
Definition starts_with_space (s : string) : bool :=
  match N_of_ascii <$> take 3 (list_ascii_of_string s) with
  | 9%N :: _ | 10%N :: _ | 11%N :: _ | 12%N :: _ | 13%N :: _ | 32%N :: _ => true
  | 194%N :: 160%N :: _ => true
  | 225%N :: 154%N :: 128%N :: _ => true
  | 226%N :: 128%N :: n :: _ =>
      ((128 <=? n) && (n <=? 138) || (n =? 168) || (n =? 169) || (n =? 175))%N
  | 226%N :: 129%N :: 159%N :: _ => true
  | 227%N :: 128%N :: 128%N :: _ => true
  | 239%N :: 187%N :: 191%N :: _ => true
  | _ => false
  end.

(** [/\s/g.test(s)]: the literal is evaluated afresh on every call, so the
    search starts at index 0. *)
Fixpoint test_whitespace (s : string) : bool :=
  match s with
  | EmptyString => false
  | String _ rest => starts_with_space s || test_whitespace rest
  end.


(** ** The world outside the process *)

Module Git.

Record Signature : Type := {
  sig_name : string;
  sig_email : string;
  sig_when : Z;
}.

(** A tree is identified by its entries (path and blob), which stands
    for the object identifier that [writeTree] returns. *)
Definition Tree : Type := list (string * string).

Record Commit : Type := {
  update_ref : string;
  author : Signature;
  committer : Signature;
  message : string;
  tree : Tree;
  parents : list nat;            (* commits are numbered from 1 *)
}.

(** A repository: what its [.git] directory holds. *)
Record Repository : Type := {
  index : Tree;                  (* the in-memory staging index *)
  index_file : Tree;             (* the index as persisted by [write] *)
  commits : list Commit;         (* newest first *)
  remotes : gmap string string;  (* remote name to URL *)
}.

Definition empty : Repository :=
  {| index := []; index_file := []; commits := []; remotes := ∅ |}.

End Git.

(** The calls through which the process touches the outside. *)
Inductive api : Type :=
| fs_readFile | fs_mkdir | fs_writeFile
| Config_openDefault | Config_getString
| inquirer_prompt
| babel_transformAsync
| Repository_init | Repository_refreshIndex | Index_addByPath | Index_write
| Index_writeTree | Signature_now | Repository_createCommit | Remote_create.

Inductive event : Type :=
| Call (f : api) (arg : string)
| ConsoleError (line : string + error)
| Uncaught (e : error).        (* an exception that ends the process *)

Record World : Type := {
  cwd : string;                       (* [process.cwd()], an absolute path *)
  clock : Z;
  config : gmap string string;        (* the default git configuration *)
  dirs : gset string;                 (* directories, by absolute path,
                                         those inside a [.git] apart *)
  files : gmap string string;         (* regular files, by absolute path,
                                         those inside a [.git] apart *)
  repos : gmap string Git.Repository; (* repositories, by working directory *)
  log : list event;                   (* oldest first *)
}.

Definition with_dirs (d : gset string) (w : World) : World :=
  {| cwd := cwd w; clock := clock w; config := config w; dirs := d;
     files := files w; repos := repos w; log := log w |}.

Definition with_files (f : gmap string string) (w : World) : World :=
  {| cwd := cwd w; clock := clock w; config := config w; dirs := dirs w;
     files := f; repos := repos w; log := log w |}.

Definition with_repos (r : gmap string Git.Repository) (w : World) : World :=
  {| cwd := cwd w; clock := clock w; config := config w; dirs := dirs w;
     files := files w; repos := r; log := log w |}.

Definition with_log (l : list event) (w : World) : World :=
  {| cwd := cwd w; clock := clock w; config := config w; dirs := dirs w;
     files := files w; repos := repos w; log := l |}.

(** ** Asynchronous computations: state and exceptions *)

Inductive Result (A : Type) : Type :=
| Ok (a : A) (w : World)
| Throw (e : error) (w : World).
Arguments Ok {A} a w.
Arguments Throw {A} e w.

Definition Async (A : Type) : Type := World -> Result A.

Definition ret {A} (a : A) : Async A := fun w => Ok a w.
Definition throw {A} (e : error) : Async A := fun w => Throw e w.
Definition bind {A B} (c : Async A) (k : A -> Async B) : Async B :=
  fun w => match c w with
           | Ok a w' => k a w'
           | Throw e w' => Throw e w'
           end.

Notation "x <- c ;; k" := (bind c (fun x => k))
  (at level 100, c at next level, right associativity).
Notation "c ;;; k" := (bind c (fun _ => k))
  (at level 100, right associativity).

Definition record (f : api) (arg : string) : Async unit :=
  fun w => Ok tt (with_log (log w ++ [Call f arg]) w).

(** A promise that nothing awaits: when it rejects, the process-level
    [unhandledRejection] event fires, which the script answers by logging
    the error and exiting.  When that happens is a matter of timing, which
    the embedding does not have: the rejection is taken to surface at the
    next suspension point, whereas the process goes on until the event is
    delivered (and is killed by the exit hook of [inquirer] if that is
    during the interview).  What is proved below of a run with one
    argument is therefore proved of runs whose license file is readable,
    or does not depend on when the run ends. *)
Definition unawaited {A} (p : Promise A) : Async unit :=
  match p with
  | Resolved _ => ret tt
  | Rejected e => throw e
  end.

(** ** path and fs *)

(** [path.join(a, b)] for segments that are already normalised (neither
    empty, nor [.] or [..], nor holding doubled separators). *)
Definition join (a b : string) : string := a ++ "/" ++ b.

Definition isAbsolute (p : string) : bool :=
  match p with
  | String "/" _ => true
  | _ => false
  end.

(** How the operating system reads a path handed to [fs] by a process
    whose working directory is [base]; the path is taken to be written
    without [.], [..] or links, so that it names one place only. *)
Definition resolve (base p : string) : string :=
  if isAbsolute p then p else join base p.

(** The directory that holds [p]: what precedes the last separator of
    [p].  The root is the empty string. *)
Fixpoint parent (p : string) : option string :=
  match p with
  | EmptyString => None
  | String c rest =>
      match parent rest with
      | Some d => Some (String c d)
      | None => if decide (c = "/"%char) then Some EmptyString else None
      end
  end.

(** What reading the file at [path] gives: its contents, EISDIR when a
    directory is there, ENOENT when nothing is. *)
Definition read (path : string) (w : World) : error + Buffer :=
  match files w !! resolve (cwd w) path with
  | Some contents => inr {| bytes := contents |}
  | None =>
      if decide (resolve (cwd w) path ∈ dirs w)
      then inl (EISDIR "read" path)
      else inl (ENOENT "open" path)
  end.


(** [promisify(readFile)(path)]: the promise is returned at once; it
    settles with the contents or with the error of the read. *)
Definition readFileAsync (path : string) : Async (Promise Buffer) :=
  record fs_readFile path ;;;
  fun w => match read path w with
           | inr buffer => Ok (Resolved buffer) w
           | inl e => Ok (Rejected e) w
           end.

(** [promisify(mkdir)(path)]: the path must be free and the directory that
    is to hold it must exist.  Permissions are outside the model. *)
Definition mkdirAsync (path : string) : Async unit :=
  record fs_mkdir path ;;;
  fun w =>
    let p := resolve (cwd w) path in
    let d := default EmptyString (parent p) in
    if decide (path = EmptyString) then Throw (ENOENT "mkdir" path) w
    else if decide (p ∈ dirs w ∨ is_Some (files w !! p))
         then Throw (EEXIST "mkdir" path) w
    else if decide (d = EmptyString ∨ d ∈ dirs w)
         then Ok tt (with_dirs ({[p]} ∪ dirs w) w)
    else if decide (is_Some (files w !! d))
         then Throw (ENOTDIR "mkdir" path) w
         else Throw (ENOENT "mkdir" path) w.

(** The message of ERR_INVALID_ARG_TYPE for the data of [writeFile]. *)
Definition invalid_data : string :=
  "The " ++ dquote ++ "data" ++ dquote
  ++ " argument must be of type string or an instance of Buffer, "
  ++ "TypedArray, or DataView. Received an instance of Object".

(** [promisify(writeFile)(path, data)] under release [node] of Node.js:
    data that is neither a string nor a buffer is written as ['' + data]
    by the releases before 14 and rejected, before anything is opened, by
    the later ones. *)
Definition writeFileAsync {D} `{ToString D} `{Data D} (node : nat)
    (path : string) (data : D) : Async unit :=
  record fs_writeFile path ;;;
  fun w =>
    let p := resolve (cwd w) path in
    if negb (plain data || (node <? 14)%nat)
    then Throw (TypeError invalid_data) w
    else if decide (p ∈ dirs w) then Throw (EISDIR "open" path) w
    else Ok tt (with_files (<[p := toString data]> (files w)) w).

Definition console_error (what : string + error) : Async unit :=
  fun w => Ok tt (with_log (log w ++ [ConsoleError what]) w).

Definition process_cwd : Async string := fun w => Ok (cwd w) w.

(** ** nodegit *)

Module Nodegit.
Import Git.

(** [Git.Config.openDefault()]: a snapshot of the configuration. *)
Definition Config_openDefault : Async (gmap string string) :=
  record Config_openDefault EmptyString ;;;
  fun w => Ok (config w) w.

(** [config.getString(key)] rejects when the key is not set. *)
Definition Config_getString (cfg : gmap string string) (key : string)
  : Async string :=
  record Config_getString key ;;;
  match cfg !! key with
  | Some v => ret v
  | None => throw (GitError ("config value '" ++ key ++ "' was not found"))
  end.

(** Run [f] on the repository whose working directory is [path]. *)
Definition on_repository {A} (path : string)
    (f : Repository -> error + A * Repository) : Async A :=
  fun w =>
    match repos w !! path with
    | None => Throw (GitError ("could not find repository at " ++ path)) w
    | Some r =>
        match f r with
        | inl e => Throw e w
        | inr (a, r') => Ok a (with_repos (<[path := r']> (repos w)) w)
        end
    end.

(** [Git.Repository.init(path, 0)]: a non-bare repository.  The working
    directory is created when missing, [.git] is created in it, and an
    existing repository is kept.  (Missing directories above the working
    directory would be created too; [main] asks for a directory that
    [mkdir] has just made.)  The handle returned is the path. *)
Definition Repository_init (path : string) : Async string :=
  record Repository_init path ;;;
  fun w =>
    let r := default Git.empty (repos w !! path) in
    Ok path (with_repos (<[path := r]> (repos w))
               (with_dirs ({[join path ".git"]} ∪ ({[path]} ∪ dirs w)) w)).

(** [repo.refreshIndex()]: reload the index from its file. *)
Definition refreshIndex (repo : string) : Async string :=
  record Repository_refreshIndex repo ;;;
  on_repository repo (fun r =>
    inr (repo, {| index := index_file r; index_file := index_file r;
                  commits := commits r; remotes := remotes r |})).

Definition stage (path blob : string) (t : Tree) : Tree :=
  (filter (fun e => e.1 ≠ path) t ++ [(path, blob)])%list.

(** [index.addByPath(path)]: stage the working-tree file [path]. *)
Definition addByPath (repo path : string) : Async unit :=
  record Index_addByPath path ;;;
  fun w =>
    match files w !! join repo path with
    | None =>
        Throw (GitError ("could not find '" ++ path ++ "' to stat")) w
    | Some blob =>
        on_repository repo (fun r =>
          inr (tt, {| index := stage path blob (index r);
                      index_file := index_file r;
                      commits := commits r; remotes := remotes r |})) w
    end.

(** [index.write()]. *)
Definition write (repo : string) : Async unit :=
  record Index_write repo ;;;
  on_repository repo (fun r =>
    inr (tt, {| index := index r; index_file := index r;
                commits := commits r; remotes := remotes r |})).

(** [index.writeTree()]. *)
Definition writeTree (repo : string) : Async Tree :=
  record Index_writeTree repo ;;;
  on_repository repo (fun r => inr (index r, r)).

(** A JavaScript string as the C string that libgit2 receives: it ends
    at the first NUL. *)
Fixpoint c_string (s : string) : string :=
  match s with
  | EmptyString => EmptyString
  | String c rest =>
      if (N_of_ascii c =? 0)%N then EmptyString else String c (c_string rest)
  end.

(** libgit2's [is_crud]: what a name or an address may not begin or end
    with. *)
Definition is_crud (c : ascii) : bool :=
  (N_of_ascii c <=? 32)%N
  || bool_decide (c ∈ [ "."; ","; ":"; ";"; "<"; ">"; "034"; "\"; "'" ]%char).

Fixpoint trim_start (s : string) : string :=
  match s with
  | EmptyString => EmptyString
  | String c rest => if is_crud c then trim_start rest else s
  end.

Fixpoint trim_end (s : string) : string :=
  match s with
  | EmptyString => EmptyString
  | String c rest =>
      match trim_end rest with
      | EmptyString => if is_crud c then EmptyString else String c EmptyString
      | kept => String c kept
      end
  end.

(** libgit2's [extract_trimmed]. *)
Definition extract_trimmed (s : string) : string := trim_end (trim_start s).

Fixpoint contains_angle_brackets (s : string) : bool :=
  match s with
  | EmptyString => false
  | String c rest =>
      bool_decide (c = "<"%char ∨ c = ">"%char) || contains_angle_brackets rest
  end.

(** libgit2's [git_signature_new]: the name and the address as they are
    stored, or the reason why they are not taken. *)
Definition signature_new (name email : string) (time : Z)
  : error + Signature :=
  let name := c_string name in
  let email := c_string email in
  if contains_angle_brackets name || contains_angle_brackets email
  then inl (GitError ("failed to parse signature - Neither `name` nor "
                      ++ "`email` should contain angle brackets chars."))
  else
    let name := extract_trimmed name in
    let email := extract_trimmed email in
    if decide (name = EmptyString ∨ email = EmptyString)
    then inl (GitError ("failed to parse signature - Signature cannot "
                        ++ "have an empty name or email"))
    else inr {| sig_name := name; sig_email := email; sig_when := time |}.

(** [Git.Signature.now(name, email)], which throws where libgit2 fails. *)
Definition Signature_now (name email : string) : Async Signature :=
  record Signature_now name ;;;
  fun w => match signature_new name email (clock w) with
           | inr signature => Ok signature w
           | inl e => Throw e w
           end.

(** [repo.createCommit(updateRef, author, committer, message, tree,
    parents)]: the reference must currently point at the first parent;
    with no parents it must be unborn. *)
Definition createCommit (repo updateRef : string)
    (author committer : Signature) (message : string) (oid : Tree)
    (parents : list nat) : Async Commit :=
  record Repository_createCommit message ;;;
  on_repository repo (fun r =>
    let c := {| update_ref := updateRef; author := author;
                committer := committer; message := message;
                tree := oid; parents := parents |} in
    let tip := match commits r with
               | [] => None
               | _ => Some (length (commits r))
               end in
    if decide (tip = head parents)
    then inr (c, {| index := index r; index_file := index_file r;
                    commits := c :: commits r; remotes := remotes r |})
    else inl (GitError
           "failed to create commit: current tip is not the first parent")).

(** [Git.Remote.create(repo, name, url)]. *)
Definition Remote_create (repo name url : string) : Async unit :=
  record Remote_create url ;;;
  on_repository repo (fun r =>
    match remotes r !! name with
    | Some _ => inl (GitError ("remote '" ++ name ++ "' already exists"))
    | None =>
        inr (tt, {| index := index r; index_file := index_file r;
                    commits := commits r;
                    remotes := <[name := url]> (remotes r) |})
    end).

End Nodegit.

(** ** The interview *)

Module Answers.

(** The object [inquirer.prompt] resolves with.  A question whose [when]
    is false leaves its property unset. *)
Record t : Type := {
  spdx : bool;
  name : option string;
  shortName : option string;
  longName : string;
  version : option string;
  authorName : string;
  authorEmail : string;
  license : bool;
}.

(** The record after [answers.name = v]. *)
Definition set_name (v : option string) (a : t) : t :=
  {| spdx := spdx a; name := v; shortName := shortName a;
     longName := longName a; version := version a;
     authorName := authorName a; authorEmail := authorEmail a;
     license := license a |}.

Definition set_license (b : bool) (a : t) : t :=
  {| spdx := spdx a; name := name a; shortName := shortName a;
     longName := longName a; version := version a;
     authorName := authorName a; authorEmail := authorEmail a;
     license := b |}.

End Answers.

(** The [when] and [validate] callbacks of the question list (lines 42-96).
    A validator yields [true], [false] or the message to show.
    [spdxLicenseIds] is the list exported by [spdx-license-ids]. *)
Module Questions.

(** [ok || msg]. *)
Definition or_message (ok : bool) (msg : string) : bool + string :=
  if ok then inl true else inr msg.

Definition when_name (a : Answers.t) : bool := Answers.spdx a.
Definition validate_name (spdxLicenseIds : list string) (answer : string)
  : bool + string :=
  or_message (bool_decide (answer ∈ spdxLicenseIds))
             "That is not a valid SPDX identifier.".

Definition when_shortName (a : Answers.t) : bool := negb (Answers.spdx a).
Definition validate_shortName (answer : string) : bool + string :=
  or_message (negb (test_whitespace answer))
             "The name cannot contain whitespace".

Definition validate_longName (answer : string) : bool + string :=
  inl (negb (String.eqb answer EmptyString)).

Definition when_version (a : Answers.t) : bool := negb (Answers.spdx a).
Definition validate_version (answer : string) : bool + string :=
  or_message (negb (test_whitespace answer))
             "The version cannot contain whitespace".

Definition validate_authorName (answer : string) : bool + string :=
  inl (negb (String.eqb answer EmptyString)).
Definition validate_authorEmail (answer : string) : bool + string :=
  inl (negb (String.eqb answer EmptyString)).

Definition validate_license (answer : bool) : bool + string :=
  or_message answer
    ("You must agree to license this package under the CC0 license "
     ++ "to participate in the License Project.").

Definition accepted (verdict : bool + string) : bool :=
  match verdict with
  | inl true => true
  | _ => false
  end.

(** A question of type [input]: asked when [when] holds and then
    answered with a string its validator accepts, skipped otherwise. *)
Definition input (when : bool) (validate : string -> bool + string)
    (answer : option string) : bool :=
  match answer with
  | Some s => when && accepted (validate s)
  | None => negb when
  end.

(** The answer record respects every [when] and every validator of an
    [input] question.  The two [confirm] questions yield a boolean. *)
Definition validated (spdxLicenseIds : list string) (a : Answers.t) : bool :=
  input (when_name a) (validate_name spdxLicenseIds) (Answers.name a)
  && input (when_shortName a) validate_shortName (Answers.shortName a)
  && accepted (validate_longName (Answers.longName a))
  && input (when_version a) validate_version (Answers.version a)
  && accepted (validate_authorName (Answers.authorName a))
  && accepted (validate_authorEmail (Answers.authorEmail a)).

End Questions.

(** ** The manifest *)

Module Package.

Record Author : Type := { author_name : string; email : string }.
Record Repository : Type := { type : string; url : string }.

Record t : Type := {
  name : string;
  version : string;
  description : string;
  keywords : list string;
  license : string;
  author : Author;
  esnext : string;
  main : string;
  repository : Repository;
}.

(** The object as [JSON.stringify] walks it: own properties in insertion
    order. *)
Definition json (p : t) : JSON.value :=
  JSON.Obj [
    ("name", JSON.Str (name p));
    ("version", JSON.Str (version p));
    ("description", JSON.Str (description p));
    ("keywords", JSON.Arr (JSON.Str <$> keywords p));
    ("license", JSON.Str (license p));
    ("author", JSON.Obj [("name", JSON.Str (author_name (author p)));
                         ("email", JSON.Str (email (author p)))]);
    ("esnext", JSON.Str (esnext p));
    ("main", JSON.Str (main p));
    ("repository", JSON.Obj [("type", JSON.Str (type (repository p)));
                             ("url", JSON.Str (url (repository p)))])
  ].

End Package.

(** ** The script *)

(** What the process is started with and the collaborators it calls. *)
Record Env : Type := {
  (* the major release of Node.js that runs the script *)
  node : nat;
  (* the directory the script is installed in *)
  __dirname : string;
  (* [process.argv] *)
  argv : list string;
  (* what [inquirer.prompt] resolves with, given the two defaults offered *)
  operator : string -> string -> Answers.t;
  (* [babel.transformAsync] with the options of lines 144-148 *)
  transform : string -> error + BabelFileResult;
  (* the [text] of [@license-project/CC0-1.0], when it can be required *)
  packaged : option string;
  (* what line 26 has read from [__dirname + '/cc0.txt'], which ships with
     the script; see [bootstrap] *)
  cc0_txt : Buffer;
}.

(** [cc0.text] as [main] finds it (line 155): the text of the waiver
    module or of the buffer that the bootstrap has read, see [bootstrap]. *)
Definition cc0_text (env : Env) : string :=
  match packaged env with
  | Some text => text
  | None => toString (cc0_txt env)
  end.

(** Lines 42-96. *)
Definition prompt (env : Env) (gitName gitEmail : string) : Async Answers.t :=
  record inquirer_prompt EmptyString ;;;
  ret (operator env gitName gitEmail).

(** Lines 143-149. *)
Definition transformAsync (env : Env) (source : string)
  : Async BabelFileResult :=
  record babel_transformAsync "index.js" ;;;
  match transform env source with
  | inr result => ret result
  | inl e => throw e
  end.

(** Lines 98-100. *)
Definition resolve_name (answers : Answers.t) : Answers.t :=
  if negb (Answers.spdx answers)
  then Answers.set_name
         (Some (toString (Answers.shortName answers) ++ "-"
                ++ toString (Answers.version answers))) answers
  else answers.

(** Lines 102-123.  [filter(x => x != null)] drops [null] and
    [undefined]. *)
Definition package (answers : Answers.t) : Package.t :=
  {| Package.name := "@license-project/" ++ toString (Answers.name answers);
     Package.version := "1.0.0";
     Package.description := Answers.longName answers;
     Package.keywords :=
       omap id [ Some "license-project";
                 Some "license";
                 if Answers.spdx answers then Some "spdx" else None;
                 Answers.name answers ];
     Package.license := "CC0-1.0";
     Package.author :=
       {| Package.author_name := Answers.authorName answers;
          Package.email := Answers.authorEmail answers |};
     Package.esnext := "index.mjs";
     Package.main := "index.js";
     Package.repository :=
       {| Package.type := "git";
          Package.url := "https://github.com/license-project/"
                         ++ toString (Answers.name answers) |} |}.

(** Lines 125-141. *)
Definition index (answers : Answers.t) (licenseText : string) : string :=
  unlines [
    EmptyString;
    EmptyString;
    "    /*";
    "     * The " ++ toString (Answers.name answers)
      ++ " package from The License Project";
    "     *";
    "     * To the extent possible under law, the person who associated CC0 with";
    "     * this package from The License Project has waived all copyright and";
    "     * related or neighboring rights to this package from The License Project.";
    "     * ";
    "     * You should have received a copy of the CC0 legalcode along with this";
    "     * work. If not, see <http://creativecommons.org/publicdomain/zero/1.0/>.";
    "     */";
    EmptyString;
    "    export const name = " ++ JSON.stringify_string (Answers.name answers)
      ++ ";";
    "    export const text = " ++ JSON.stringify_string (Some licenseText)
      ++ ";";
    EmptyString;
    "    "
  ].

Definition usage : string := "You must specify a license file name.".
Definition commit_message : string :=
  "Initial commit (by @license-project/generator)".

(** Lines 30-169.  Line 36 parses as
    [await (readFileAsync(process.argv[2]).toString('utf-8'))]: [toString]
    is called on the promise, and awaiting a string yields that string. *)
Definition main (env : Env) : Async (option Z) :=
  if negb (length (argv env) =? 3)%nat then
    console_error (inl usage) ;;;
    ret (Some 1%Z)
  else
    reading <- readFileAsync (default EmptyString (argv env !! 2%nat)) ;;
    let licenseText := toString reading in
    unawaited reading ;;;
    gitConfig <- Nodegit.Config_openDefault ;;
    gitName <- Nodegit.Config_getString gitConfig "user.name" ;;
    gitEmail <- Nodegit.Config_getString gitConfig "user.email" ;;
    answers <- prompt env gitName gitEmail ;;
    let answers := resolve_name answers in
    let package := package answers in
    let index := index answers licenseText in
    es5Index <- transformAsync env index ;;
    match Answers.name answers with
    | None =>
        throw (TypeError "The path argument must be of type string.")
    | Some name =>
        mkdirAsync name ;;;
        writeFileAsync (node env) (join name "package.json")
                       (JSON.stringify (Package.json package) 4) ;;;
        writeFileAsync (node env) (join name "index.mjs") index ;;;
        writeFileAsync (node env) (join name "index.js") es5Index ;;;
        writeFileAsync (node env) (join name "LICENSE") (cc0_text env) ;;;
        here <- process_cwd ;;
        let gitPath := join here name in
        gitRepo <- Nodegit.Repository_init gitPath ;;
        gitIndex <- Nodegit.refreshIndex gitRepo ;;
        Nodegit.addByPath gitIndex "package.json" ;;;
        Nodegit.addByPath gitIndex "index.mjs" ;;;
        Nodegit.addByPath gitIndex "index.js" ;;;
        Nodegit.addByPath gitIndex "LICENSE" ;;;
        Nodegit.write gitIndex ;;;
        oid <- Nodegit.writeTree gitIndex ;;
        author <- Nodegit.Signature_now (Answers.authorName answers)
                                        (Answers.authorEmail answers) ;;
        Nodegit.createCommit gitRepo "HEAD" author author commit_message
                             oid [] ;;;
        Nodegit.Remote_create gitRepo "origin"
          ("git@github.com:license-project/" ++ name ++ ".git") ;;;
        ret None
    end.

(** Lines 4-7 and 170: [process.exit(result || 0)] when [main] resolves;
    the [unhandledRejection] handler when it rejects. *)
Definition run (env : Env) (w : World) : Z * World :=
  match main env w with
  | Ok result w' => (default 0%Z result, w')
  | Throw e w' => (1%Z, with_log (log w' ++ [ConsoleError (inr e)]) w')
  end.

(** ** Start-up *)





(** ** What a run obtains from its surroundings *)

(** The answers a run started in [w] collects (lines 38-96): the two
    defaults come from the git configuration. *)
Definition interviewed (env : Env) (w : World) : option Answers.t :=
  gitName ← config w !! "user.name";
  gitEmail ← config w !! "user.email";
  Some (operator env gitName gitEmail).

(** The package name such a run derives (lines 98-100). *)
Definition derived_name (env : Env) (w : World) : option string :=
  answers ← interviewed env w;
  Answers.name (resolve_name answers).

(** The license file named on the command line. *)
Definition license_file (env : Env) (w : World) : string :=
  resolve (cwd w) (default EmptyString (argv env !! 2%nat)).

(** The calls of a complete run, in order. *)
Definition full_trace (env : Env) (w : World) (answers : Answers.t)
    (name : string) : list event :=
  [ Call fs_readFile (default EmptyString (argv env !! 2%nat));
    Call Config_openDefault EmptyString;
    Call Config_getString "user.name";
    Call Config_getString "user.email";
    Call inquirer_prompt EmptyString;
    Call babel_transformAsync "index.js";
    Call fs_mkdir name;
    Call fs_writeFile (join name "package.json");
    Call fs_writeFile (join name "index.mjs");
    Call fs_writeFile (join name "index.js");
    Call fs_writeFile (join name "LICENSE");
    Call Repository_init (join (cwd w) name);
    Call Repository_refreshIndex (join (cwd w) name);
    Call Index_addByPath "package.json";
    Call Index_addByPath "index.mjs";
    Call Index_addByPath "index.js";
    Call Index_addByPath "LICENSE";
    Call Index_write (join (cwd w) name);
    Call Index_writeTree (join (cwd w) name);
    Call Signature_now (Answers.authorName answers);
    Call Repository_createCommit commit_message;
    Call Remote_create
      ("git@github.com:license-project/" ++ name ++ ".git") ].

(** The calls of a run that stops at [mkdir]. *)
Definition trace_to_mkdir (env : Env) (name : string) : list event :=
  [ Call fs_readFile (default EmptyString (argv env !! 2%nat));
    Call Config_openDefault EmptyString;
    Call Config_getString "user.name";
    Call Config_getString "user.email";
    Call inquirer_prompt EmptyString;
    Call babel_transformAsync "index.js";
    Call fs_mkdir name ].

(** The files of the package directory. *)
Definition artifacts : list string :=
  ["package.json"; "index.mjs"; "index.js"; "LICENSE"].

(** The file system once lines 152-155 have run: [index.mjs] carries the
    string form of the unawaited promise as license text, [index.js] the
    string form of the compiler's result object. *)
Definition written (env : Env) (w : World) (answers : Answers.t)
    (name : string) : gmap string string :=
  <[resolve (cwd w) (join name "LICENSE") := cc0_text env]>
    (<[resolve (cwd w) (join name "index.js") := "[object Object]"]>
       (<[resolve (cwd w) (join name "index.mjs") :=
            index answers "[object Promise]"]>
          (<[resolve (cwd w) (join name "package.json") :=
               JSON.stringify (Package.json (package answers)) 4]>
             (files w)))).

(** What a world must offer for a run to go through: every check that
    [main] and the calls it makes perform, in order. *)
Record ready (env : Env) (w : World) (raw : Answers.t) (name : string)
  : Prop := {
  ready_argv : length (argv env) = 3%nat;
  ready_license : is_Some (files w !! license_file env w);
  ready_answers : interviewed env w = Some raw;
  ready_name : Answers.name (resolve_name raw) = Some name;
  ready_compiles :
    ∃ es5Index,
      transform env (index (resolve_name raw) "[object Promise]")
      = inr es5Index;
  ready_named : name ≠ EmptyString;
  ready_fresh :
    ¬ (resolve (cwd w) name ∈ dirs w
       ∨ is_Some (files w !! resolve (cwd w) name));
  ready_held :
    let d := default EmptyString (parent (resolve (cwd w) name)) in
    d = EmptyString ∨ d ∈ dirs w;
  ready_regular :
    ∀ f, f ∈ artifacts ->
         resolve (cwd w) (join name f) ∉ {[resolve (cwd w) name]} ∪ dirs w;
  ready_coerced : (node env < 14)%nat;
  ready_staged :
    ∀ f, f ∈ artifacts ->
         is_Some (written env w (resolve_name raw) name
                  !! join (join (cwd w) name) f);
  ready_signed :
    ∃ signature,
      Nodegit.signature_new (Answers.authorName (resolve_name raw))
                            (Answers.authorEmail (resolve_name raw))
                            (clock w)
      = inr signature;
  ready_unborn :
    Git.commits (default Git.empty (repos w !! join (cwd w) name)) = [];
  ready_no_origin :
    Git.remotes (default Git.empty (repos w !! join (cwd w) name))
    !! "origin" = None;
}.

(** ** Sample runs *)

(** The same process with another operator at the keyboard. *)
Definition with_operator (op : string -> string -> Answers.t) (env : Env)
  : Env :=
  {| node := node env; __dirname := __dirname env; argv := argv env;
     operator := op; transform := transform env;
     packaged := packaged env; cc0_txt := cc0_txt env |}.

(** The operator of [env], except that the last question (the waiver) is
    answered [b]. *)
Definition answering_waiver (b : bool) (env : Env) : Env :=
  with_operator (fun gitName gitEmail =>
                   Answers.set_license b (operator env gitName gitEmail)) env.



Module Sample.

Definition mit_text : string := "MIT License" ++ nl ++ "...".

Definition mit_answers : Answers.t :=
  {| Answers.spdx := true; Answers.name := Some "MIT";
     Answers.shortName := None; Answers.longName := "The MIT License";
     Answers.version := None; Answers.authorName := "A";
     Answers.authorEmail := "a@x.com"; Answers.license := true |}.

Definition blueoak_answers : Answers.t :=
  {| Answers.spdx := false; Answers.name := None;
     Answers.shortName := Some "BlueOak";
     Answers.longName := "Blue Oak Model License";
     Answers.version := Some "1.0.0"; Answers.authorName := "B";
     Answers.authorEmail := "b@x.com"; Answers.license := true |}.

(** A license without a version, as the prompt suggests for ISC. *)
Definition isc_answers : Answers.t :=
  {| Answers.spdx := false; Answers.name := None;
     Answers.shortName := Some "ISC"; Answers.longName := "ISC License";
     Answers.version := Some EmptyString; Answers.authorName := "A";
     Answers.authorEmail := "a@x.com"; Answers.license := true |}.

(** A compiler stand-in: CommonJS output that is never the text
    [[object Object]]. *)
Definition compile (source : string) : error + BabelFileResult :=
  inr {| code := "'use strict';" ++ nl ++ source; map := None |}.

Definition env (answers : Answers.t) : Env :=
  {| node := 12;
     __dirname := "/usr/lib/generator";
     argv := ["/usr/bin/node"; "/usr/lib/generator/index.js"; "LICENSE.txt"];
     operator := fun _ _ => answers;
     transform := compile;
     packaged := None;
     cc0_txt := {| bytes := "CC0 1.0 Universal" |} |}.

Definition world (license_text : string) : World :=
  {| cwd := "/work"; clock := 1546300800;
     config := {[ "user.name" := "A"; "user.email" := "a@x.com" ]};
     dirs := {[ "/work" ]};
     files := {[ "/work/LICENSE.txt" := license_text ]};
     repos := ∅; log := [] |}.



End Sample.

(** ** Statements about the artifacts *)

(** The [LICENSE] file of the package that a run exiting with code 0 has
    written. *)
Definition LICENSE_artifact (env : Env) (w w' : World) : option string :=
  name ← derived_name env w;
  files w' !! resolve (cwd w) (join name "LICENSE").

(** The source-form module [index.mjs] that such a run has written. *)
Definition source_module (env : Env) (w w' : World) : option string :=
  name ← derived_name env w;
  files w' !! resolve (cwd w) (join name "index.mjs").

(** "[decode], applied to the emitted source-form module, gives back the
    text of the license file, whatever that text is." *)
Definition recovers_license_text (decode : string -> option string) : Prop :=
  ∀ (env : Env) (w w' : World) (T : string),
    run env w = (0%Z, w') ->
    files w !! license_file env w = Some T ->
    source_module env w w' ≫= decode = Some T.


(** "After a successful run, LICENSE holds the text of the license file
    named on the command line." *)
Definition LICENSE_is_input_text : Prop :=
  ∀ (env : Env) (w w' : World) (T : string),
    run env w = (0%Z, w') ->
    files w !! license_file env w = Some T ->
    LICENSE_artifact env w w' = Some T.

(** ** What a computation may touch *)

(** The world a computation leaves, however it ends. *)
Definition outcome {A} (r : Result A) : World :=
  match r with
  | Ok _ w => w
  | Throw _ w => w
  end.

(** [w'] differs from [w] at most in the log, in the files [F], in the
    directories [D], which may have been added, and in the repositories
    [G]; nothing that [w] held is gone. *)
Record unchanged_but (F D G : string -> Prop) (w w' : World) : Prop := {
  same_cwd : cwd w' = cwd w;
  same_config : config w' = config w;
  dirs_kept : dirs w ⊆ dirs w';
  dirs_added : ∀ d, d ∈ dirs w' -> d ∈ dirs w ∨ D d;
  files_kept : ∀ k, ¬ F k -> files w' !! k = files w !! k;
  files_stay : ∀ k, is_Some (files w !! k) -> is_Some (files w' !! k);
  repos_kept : ∀ k, ¬ G k -> repos w' !! k = repos w !! k;
  repos_stay : ∀ k, is_Some (repos w !! k) -> is_Some (repos w' !! k);
}.

(** The calls of the pipeline, in the order of lines 36-169. *)
Definition pipeline : list api :=
  [ fs_readFile; Config_openDefault; Config_getString; Config_getString;
    inquirer_prompt; babel_transformAsync; fs_mkdir;
    fs_writeFile; fs_writeFile; fs_writeFile; fs_writeFile;
    Repository_init; Repository_refreshIndex;
    Index_addByPath; Index_addByPath; Index_addByPath; Index_addByPath;
    Index_write; Index_writeTree; Signature_now; Repository_createCommit;
    Remote_create ].

(** The log entries of the calls [cs]. *)
Definition calls (cs : list (api * string)) : list event :=
  (fun c => Call c.1 c.2) <$> cs.

(** Started with working directory [base] and configuration [cfg], the
    computation [c] stays within [F], [D] and [G], logs calls to the
    functions [t] in that order, as many of them as it gets to before it
    throws, and resolves only with values that satisfy [Q]. *)
Definition confined (base : string) (cfg : gmap string string)
    (F D G : string -> Prop) (t : list api) {A} (c : Async A)
    (Q : A -> Prop) : Prop :=
  ∀ w, cwd w = base -> config w = cfg ->
    ∃ cs : list (api * string),
      unchanged_but F D G w (outcome (c w))
      ∧ log (outcome (c w)) = (log w ++ calls cs)%list
      ∧ match c w with
        | Ok a _ => cs.*1 = t ∧ Q a
        | Throw _ _ => cs.*1 `prefix_of` t
        end.

(** The paths a run started in [w] may write, create and commit to. *)
Definition artifact_path (env : Env) (w : World) (k : string) : Prop :=
  ∃ name f, derived_name env w = Some name ∧ f ∈ artifacts
            ∧ k = resolve (cwd w) (join name f).

(** [mkdir] resolves the name against the working directory; the
    repository is initialised at [join(process.cwd(), name)], with its
    [.git] inside. *)
Definition package_directory (env : Env) (w : World) (d : string) : Prop :=
  ∃ name, derived_name env w = Some name
          ∧ (d = resolve (cwd w) name ∨ d = join (cwd w) name
             ∨ d = join (join (cwd w) name) ".git").

Definition package_repository (env : Env) (w : World) (k : string) : Prop :=
  ∃ name, derived_name env w = Some name ∧ k = join (cwd w) name.

(** ** Other surroundings *)

(** The same process with another compiler. *)
Definition with_transform (t : string -> error + BabelFileResult) (env : Env)
  : Env :=
  {| node := node env; __dirname := __dirname env; argv := argv env;
     operator := operator env; transform := t;
     packaged := packaged env; cc0_txt := cc0_txt env |}.

(** The same world with another git configuration. *)
Definition with_config (c : gmap string string) (w : World) : World :=
  {| cwd := cwd w; clock := clock w; config := c; dirs := dirs w;
     files := files w; repos := repos w; log := log w |}.

(** ** Where a package goes *)

(** The promise of line 36, if the run gets to make it, resolves. *)
Definition settled (env : Env) (w : World) : Prop :=
  length (argv env) = 3%nat -> is_Some (files w !! license_file env w).

(** A name that is one normalised path segment: a file name. *)
Definition segment (name : string) : Prop :=
  name ≠ EmptyString ∧ name ≠ "." ∧ name ≠ ".."
  ∧ ("/"%char ∉ list_ascii_of_string name)
  ∧ ("000"%char ∉ list_ascii_of_string name).



(** * Properties *)

(** ** Stepping through a computation *)

Lemma bind_Ok {A B} (c : Async A) (k : A -> Async B) (w w' : World) (b : B) :
  bind c k w = Ok b w' -> ∃ a w1, c w = Ok a w1 ∧ k a w1 = Ok b w'.
Proof.
  unfold bind. destruct (c w) as [a w1|e w1]; [eauto|discriminate].
Qed.

Lemma Ok_inj {A} (a a' : A) (w w' : World) :
  Ok a w = Ok a' w' -> a' = a ∧ w' = w.
Proof. by intros [= -> ->]. Qed.

Lemma bind_run_Ok {A B} (c : Async A) (k : A -> Async B) (w w1 : World)
    (a : A) :
  c w = Ok a w1 -> bind c k w = k a w1.
Proof. unfold bind. by intros ->. Qed.

Lemma bind_run_Throw {A B} (c : Async A) (k : A -> Async B) (w w1 : World)
    (e : error) :
  c w = Throw e w1 -> bind c k w = Throw e w1.
Proof. unfold bind. by intros ->. Qed.

Lemma bind_ext {A B} (c : Async A) (k1 k2 : A -> Async B) (w : World) :
  (∀ a w1, c w = Ok a w1 -> k1 a w1 = k2 a w1) ->
  bind c k1 w = bind c k2 w.
Proof. unfold bind. intros H. destruct (c w); [by apply H|done]. Qed.

Ltac run_in H :=
  cbv beta iota zeta delta
      [bind ret throw record unawaited console_error process_cwd
       read readFileAsync mkdirAsync writeFileAsync prompt transformAsync
       Nodegit.Config_openDefault Nodegit.Config_getString
       Nodegit.on_repository Nodegit.Repository_init Nodegit.refreshIndex
       Nodegit.addByPath Nodegit.write Nodegit.writeTree
       Nodegit.Signature_now Nodegit.createCommit Nodegit.Remote_create
       with_log with_files with_dirs with_repos
       plain string_Data BabelFileResult_Data orb negb] in H;
  cbn [cwd clock config dirs files repos log] in H;
  rewrite ?lookup_insert_eq in H;
  cbv beta iota in H;
  cbn [Git.commits Git.remotes Git.index Git.index_file] in H.

(** Peel the first call off a computation known to resolve. *)
Ltac step H :=
  let Hc := fresh "Hc" in
  apply bind_Ok in H as (? & ? & Hc & H);
  run_in Hc.

Ltac thrown :=
  match goal with
  | E : Throw _ _ = Ok _ _ |- _ => discriminate E
  | E : throw _ _ = Ok _ _ |- _ => discriminate E
  end.

Ltac finish Hc H :=
  match type of Hc with
  | _ = Ok ?a ?w1 => apply Ok_inj in Hc; destruct Hc; subst a w1
  end;
  cbv beta zeta in H.

Ltac run_goal :=
  cbv beta iota zeta delta
      [bind ret throw record unawaited console_error process_cwd
       read readFileAsync mkdirAsync writeFileAsync prompt transformAsync
       Nodegit.Config_openDefault Nodegit.Config_getString
       Nodegit.on_repository Nodegit.Repository_init Nodegit.refreshIndex
       Nodegit.addByPath Nodegit.write Nodegit.writeTree
       Nodegit.Signature_now Nodegit.createCommit Nodegit.Remote_create
       with_log with_files with_dirs with_repos
       toString string_ToString Promise_ToString BabelFileResult_ToString
       plain string_Data BabelFileResult_Data orb negb];
  cbn [cwd clock config dirs files repos log].

(** Run the first call of the computation in the goal, which resolves once
    [tac] has rewritten what it reads from the world. *)
Ltac forward tac :=
  erewrite bind_run_Ok;
  [|run_goal; tac; cbv beta iota;
    cbn [Git.commits Git.remotes Git.index Git.index_file]; reflexivity];
  cbv beta zeta.

(** ** Paths and names *)

Lemma isAbsolute_join (a b c : string) :
  isAbsolute (join a b) = isAbsolute (join a c).
Proof. destruct a as [|x a]; reflexivity. Qed.

Lemma resolve_join_inj (base name f g : string) :
  resolve base (join name f) = resolve base (join name g) -> f = g.
Proof.
  unfold resolve. rewrite (isAbsolute_join name f g).
  destruct (isAbsolute (join name g)); unfold join; intros E.
  - apply (inj (String.append name)) in E.
    by apply (inj (String.append "/")) in E.
  - apply (inj (String.append base)), (inj (String.append "/")) in E.
    apply (inj (String.append name)) in E.
    by apply (inj (String.append "/")) in E.
Qed.

Lemma append_empty (s : string) : s ++ EmptyString = s.
Proof.
  induction s as [|c s IH]; [done|].
  change (String c (s ++ EmptyString) = String c s). by rewrite IH.
Qed.

(** A name built with a hyphen is not the keyword [spdx]. *)
Lemma hyphenated_not_spdx (a b : string) : "spdx" ≠ a ++ "-" ++ b.
Proof.
  destruct a as [|c1 [|c2 [|c3 [|c4 [|c5 a]]]]]; cbn; intros E;
    repeat (injection E as ? E; try discriminate); discriminate.
Qed.

Lemma derived_name_interviewed (env : Env) (w : World) (raw : Answers.t)
    (name : string) :
  interviewed env w = Some raw ->
  Answers.name (resolve_name raw) = Some name ->
  derived_name env w = Some name.
Proof. intros Hraw Hname. unfold derived_name. rewrite Hraw. exact Hname. Qed.

(** ** The four artifacts *)

Section written.
Context (env : Env) (w : World) (answers : Answers.t) (name : string).

Lemma written_LICENSE :
  written env w answers name !! resolve (cwd w) (join name "LICENSE")
  = Some (cc0_text env).
Proof. apply lookup_insert_eq. Qed.

Lemma written_index_js :
  written env w answers name !! resolve (cwd w) (join name "index.js")
  = Some "[object Object]".
Proof.
  unfold written.
  rewrite lookup_insert_ne by (by intros E%resolve_join_inj).
  apply lookup_insert_eq.
Qed.

Lemma written_index_mjs :
  written env w answers name !! resolve (cwd w) (join name "index.mjs")
  = Some (index answers "[object Promise]").
Proof.
  unfold written.
  rewrite !lookup_insert_ne by (by intros E%resolve_join_inj).
  apply lookup_insert_eq.
Qed.

Lemma written_package_json :
  written env w answers name !! resolve (cwd w) (join name "package.json")
  = Some (JSON.stringify (Package.json (package answers)) 4).
Proof.
  unfold written.
  rewrite !lookup_insert_ne by (by intros E%resolve_join_inj).
  apply lookup_insert_eq.
Qed.

End written.

(** ** The usage error *)

Lemma main_usage (env : Env) (w : World) :
  length (argv env) ≠ 3%nat ->
  main env w
  = Ok (Some 1%Z) (with_log (log w ++ [ConsoleError (inl usage)]) w).
Proof.
  intros Hargv. unfold main.
  destruct (Nat.eqb_spec (length (argv env)) 3) as [E|_]; [done|].
  reflexivity.
Qed.

(** ** Anatomy of a run that resolves *)

Lemma main_Ok (env : Env) (w w' : World) (r : option Z) :
  length (argv env) = 3%nat ->
  main env w = Ok r w' ->
  ∃ (raw : Answers.t) (name : string) (es5Index : BabelFileResult)
    (repo : Git.Repository) (oid : Git.Tree),
    let answers := resolve_name raw in
    r = None
    ∧ ready env w raw name
    ∧ transform env (index answers "[object Promise]") = inr es5Index
    ∧ cwd w' = cwd w
    ∧ dirs w' = {[join (join (cwd w) name) ".git"]}
                ∪ ({[join (cwd w) name]}
                   ∪ ({[resolve (cwd w) name]} ∪ dirs w))
    ∧ files w' = written env w answers name
    ∧ repos w' = <[join (cwd w) name := repo]> (repos w)
    ∧ (∃ author,
         Nodegit.signature_new (Answers.authorName answers)
                               (Answers.authorEmail answers) (clock w)
         = inr author
         ∧ Git.commits repo =
             [ {| Git.update_ref := "HEAD"; Git.author := author;
                  Git.committer := author; Git.message := commit_message;
                  Git.tree := oid; Git.parents := [] |} ])
    ∧ Git.remotes repo !! "origin" =
        Some ("git@github.com:license-project/" ++ name ++ ".git")
    ∧ log w' = (log w ++ full_trace env w answers name)%list.
Proof.
  intros Hargv H. unfold main in H. rewrite Hargv in H.
  cbn [Nat.eqb negb] in H.
  step H.
  destruct (files w !! _) as [contents|] eqn:Hfile in Hc;
    [|destruct (decide _) in Hc]; finish Hc H;
    [|step H; thrown..].
  do 2 (step H; finish Hc H).
  step H.
  destruct (config w !! "user.name") as [gitName|] eqn:Hn in Hc;
    [|thrown].
  finish Hc H. step H.
  destruct (config w !! "user.email") as [gitEmail|] eqn:He in Hc;
    [|thrown].
  finish Hc H. step H. finish Hc H. step H.
  destruct (transform env _) as [e|es5] eqn:Hbabel in Hc; [thrown|].
  finish Hc H.
  destruct (Answers.name _) as [name|] eqn:Hname in H; [|thrown].
  step H.
  destruct (decide (name = EmptyString)) as [|Hname0]; [thrown|].
  destruct (decide (_ ∨ _)) as [|Hfresh] in Hc; [thrown|].
  destruct (decide (_ ∨ _)) as [Hheld|] in Hc;
    [|destruct (decide _) in Hc; thrown].
  finish Hc H.
  do 2 (step H; destruct (decide (_ ∈ _)) as [|?Hregular] in Hc; [thrown|];
        finish Hc H).
  step H.
  destruct (node env <? 14)%nat eqn:Hnode in Hc; cbv beta iota in Hc;
    [|thrown].
  apply Nat.ltb_lt in Hnode.
  destruct (decide (_ ∈ _)) as [|?Hregular] in Hc; [thrown|].
  finish Hc H.
  step H; destruct (decide (_ ∈ _)) as [|?Hregular] in Hc; [thrown|];
    finish Hc H.
  do 3 (step H; finish Hc H).
  remember (default Git.empty (repos w !! join (cwd w) name)) as r0.
  do 4 (step H;
        match type of Hc with
        | context [ @lookup _ _ (gmap string string) _ ?k ?m ] =>
            destruct (@lookup _ _ (gmap string string) _ k m) as [?blob|]
              eqn:?Hstaged in Hc; [|thrown]
        end; finish Hc H).
  do 2 (step H; finish Hc H).
  step H.
  destruct (Nodegit.signature_new _ _ _) as [|author] eqn:Hsigned in Hc;
    [thrown|].
  finish Hc H.
  step H.
  destruct (Git.commits r0) as [|c0 history] eqn:Hcommits in Hc;
    [|by destruct (decide _) in Hc].
  destruct (decide _) as [_|?] in Hc; [|thrown].
  finish Hc H. step H.
  destruct (Git.remotes r0 !! "origin") eqn:Horigin in Hc;
    cbv beta iota in Hc; [thrown|].
  finish Hc H. apply Ok_inj in H as [-> ->]. rewrite !insert_insert_eq.
  eexists (operator env gitName gitEmail), name, es5, _, _.
  cbn [cwd clock config dirs files repos log].
  split_and!; try done.
  - split; unfold interviewed, license_file; rewrite ?Hn, ?He, ?Hfile;
      subst r0; eauto.
    + intros f Hf. unfold artifacts in Hf.
      repeat (apply elem_of_cons in Hf as [->|Hf]); try done.
      by apply elem_of_nil in Hf.
    + intros f Hf. unfold artifacts in Hf.
      repeat (apply elem_of_cons in Hf as [->|Hf]); eauto.
      by apply elem_of_nil in Hf.
  - by exists author.
  - by cbn; rewrite lookup_insert_eq.
  - unfold full_trace. by rewrite <- !app_assoc.
Qed.

Lemma run_resolves (env : Env) (w w' : World) :
  run env w = (0%Z, w') ->
  length (argv env) = 3%nat ∧ main env w = Ok None w'.
Proof.
  unfold run. intros H.
  destruct (decide (length (argv env) = 3%nat)) as [Hargv|Hargv].
  - split; [done|].
    destruct (main env w) as [r w1|e w1] eqn:Hmain; [|discriminate].
    destruct (main_Ok env w w1 r Hargv Hmain)
      as (? & ? & ? & ? & ? & -> & _).
    by injection H as <-.
  - rewrite (main_usage env w Hargv) in H. discriminate.
Qed.

(** Everything [main_Ok] says, for a run that exits with code 0 and whose
    derived name is [name]. *)
Lemma run_published (env : Env) (w w' : World) (name : string) :
  run env w = (0%Z, w') ->
  derived_name env w = Some name ->
  ∃ (raw : Answers.t) (repo : Git.Repository),
    let answers := resolve_name raw in
    ready env w raw name
    ∧ cwd w' = cwd w
    ∧ resolve (cwd w) name ∈ dirs w'
    ∧ files w' = written env w answers name
    ∧ repos w' !! join (cwd w) name = Some repo
    ∧ length (Git.commits repo) = 1%nat
    ∧ Git.remotes repo !! "origin" =
        Some ("git@github.com:license-project/" ++ name ++ ".git")
    ∧ log w' = (log w ++ full_trace env w answers name)%list.
Proof.
  intros [Hargv Hmain]%run_resolves Hderived.
  destruct (main_Ok env w w' None Hargv Hmain)
    as (raw & name' & es5 & repo & oid & _ & Hready & _ & Hcwd & Hdirs
        & Hfiles & Hrepos & Hcommits & Horigin & Hlog).
  assert (name' = name) as ->.
  { pose proof (derived_name_interviewed env w raw name'
                  (ready_answers _ _ _ _ Hready) (ready_name _ _ _ _ Hready)).
    congruence. }
  exists raw, repo. cbv zeta. split_and!; try done.
  - rewrite Hdirs. do 2 apply elem_of_union_r. apply elem_of_union_l.
    by apply elem_of_singleton.
  - rewrite Hrepos. apply lookup_insert_eq.
  - by destruct Hcommits as (author & _ & ->).
Qed.

(** The name that a run exiting with code 0 has derived. *)
Lemma run_derives (env : Env) (w w' : World) :
  run env w = (0%Z, w') -> ∃ name, derived_name env w = Some name.
Proof.
  intros [Hargv Hmain]%run_resolves.
  destruct (main_Ok env w w' None Hargv Hmain)
    as (raw & name & _ & _ & _ & _ & Hready & _).
  exists name.
  exact (derived_name_interviewed env w raw name
           (ready_answers _ _ _ _ Hready) (ready_name _ _ _ _ Hready)).
Qed.

(** The module that a run exiting with code 0 has written: its [text]
    binding quotes the string [[object Promise]] and nothing of the
    license file. *)
Lemma run_source_module (env : Env) (w w' : World) :
  run env w = (0%Z, w') ->
  ∃ raw, interviewed env w = Some raw
         ∧ source_module env w w'
           = Some (index (resolve_name raw) "[object Promise]").
Proof.
  intros Hrun. destruct (run_derives env w w' Hrun) as [name Hderived].
  destruct (run_published env w w' name Hrun Hderived)
    as (raw & repo & Hready & _ & _ & Hfiles & _).
  exists raw. split; [exact (ready_answers _ _ _ _ Hready)|].
  unfold source_module. rewrite Hderived. cbn [mbind option_bind].
  rewrite Hfiles. apply written_index_mjs.
Qed.

(** ** Readiness suffices *)




(** ** A directory in the way *)

(** A run that reaches [mkdir] while the directory (or a file of that
    name) exists stops there and leaves everything but the log as it is. *)
Lemma run_EEXIST (env : Env) (w : World) (raw : Answers.t) (name : string)
    (es5Index : BabelFileResult) :
  length (argv env) = 3%nat ->
  is_Some (files w !! license_file env w) ->
  interviewed env w = Some raw ->
  Answers.name (resolve_name raw) = Some name ->
  transform env (index (resolve_name raw) "[object Promise]")
  = inr es5Index ->
  name ≠ EmptyString ->
  resolve (cwd w) name ∈ dirs w
  ∨ is_Some (files w !! resolve (cwd w) name) ->
  run env w
  = (1%Z, with_log (log w ++ trace_to_mkdir env name
                    ++ [ConsoleError (inr (EEXIST "mkdir" name))]) w).
Proof.
  intros Hargv [contents Hfile] Hraw Hname Hbabel Hne Hexists.
  unfold license_file in Hfile. unfold interviewed in Hraw.
  destruct (config w !! "user.name") as [gitName|] eqn:Hn; [|done].
  destruct (config w !! "user.email") as [gitEmail|] eqn:He; [|done].
  injection Hraw as <-.
  unfold run, main. rewrite Hargv. cbn [Nat.eqb negb].
  forward ltac:(rewrite Hfile).
  do 2 forward idtac.
  forward ltac:(rewrite Hn).
  forward ltac:(rewrite He).
  forward idtac.
  forward ltac:(rewrite Hbabel).
  rewrite Hname.
  erewrite bind_run_Throw.
  2:{ run_goal. rewrite decide_False by done.
      rewrite decide_True by done. reflexivity. }
  cbn [with_log cwd clock config dirs files repos log].
  unfold trace_to_mkdir, with_log.
  cbn [cwd clock config dirs files repos log]. by rewrite <- !app_assoc.
Qed.

(** ** The waiver answer *)

(** [main] never reads [answers.license]. *)
Lemma main_ignores_waiver (b : bool) (env : Env) (w : World) :
  main (answering_waiver b env) w = main env w.
Proof.
  unfold main. cbn [answering_waiver with_operator argv].
  destruct (negb _); [done|].
  do 3 (apply bind_ext; intros ? ? _; cbv beta zeta).
  apply bind_ext; intros gitName ? _; cbv beta zeta.
  apply bind_ext; intros gitEmail w5 _; cbv beta zeta.
  rewrite !(bind_run_Ok (prompt _ gitName gitEmail) _ w5 _ _ eq_refl).
  cbn [answering_waiver with_operator operator].
  destruct (operator env _ _) as [[] ? ? ? ? ? ? ?];
    unfold resolve_name, package, index, transformAsync, cc0_text;
    cbn [Answers.set_license Answers.set_name Answers.spdx Answers.name
         Answers.shortName Answers.longName Answers.version
         Answers.authorName Answers.authorEmail negb
         with_operator transform packaged cc0_txt];
    reflexivity.
Qed.

(** ** The LICENSE artifact of a process that has started *)



(** * The claims *)

(** ** C1: the text binding *)

(** C1, as the code has it.  No decoder recovers the license text from
    the emitted source-form module: the sample runs on two different
    license texts both exit with code 0 and emit the same module. *)
Theorem C1_no_decoder_recovers_license_text
    (decode : string -> option string) :
  ¬ recovers_license_text decode.
Proof.
  intros Hdecode.
  pose (env := Sample.env Sample.mit_answers).
  pose (after := fun T => (run env (Sample.world T)).2).
  assert (∀ T, run env (Sample.world T) = (0%Z, after T) ->
               source_module env (Sample.world T) (after T) ≫= decode
               = Some T) as H.
  { intros T Hrun. apply (Hdecode env _ _ T Hrun). apply lookup_insert_eq. }
  assert (∀ T, run env (Sample.world T) = (0%Z, after T) ->
               source_module env (Sample.world T) (after T)
               = Some (index Sample.mit_answers "[object Promise]")) as Hsame.
  { intros T Hrun.
    destruct (run_source_module env _ _ Hrun) as (raw & Hraw & ->).
    by injection Hraw as <-. }
  pose proof (H Sample.mit_text ltac:(vm_compute; reflexivity)) as H1.
  pose proof (H "Apache License" ltac:(vm_compute; reflexivity)) as H2.
  rewrite Hsame in H1 by (vm_compute; reflexivity).
  rewrite Hsame in H2 by (vm_compute; reflexivity).
  rewrite H1 in H2. discriminate H2.
Qed.

(** ** C2: the LICENSE artifact *)

(** C2, as amended.  After a run that exits with code 0, the file
    [LICENSE] of the package directory holds the waiver text resolved at
    start-up ([cc0.text]), verbatim. *)
Theorem C2_LICENSE_holds_waiver_text (env : Env) (w w' : World) :
  run env w = (0%Z, w') ->
  LICENSE_artifact env w w' = Some (cc0_text env).
Proof.
  intros Hrun. destruct (run_derives env w w' Hrun) as [name Hderived].
  destruct (run_published env w w' name Hrun Hderived)
    as (raw & repo & _ & _ & _ & Hfiles & _).
  unfold LICENSE_artifact. rewrite Hderived. cbn [mbind option_bind].
  rewrite Hfiles. apply written_LICENSE.
Qed.

Lemma C2_LICENSE_holds_waiver_text_witness :
  let env := Sample.env Sample.mit_answers in
  let w := Sample.world Sample.mit_text in
  LICENSE_artifact env w (run env w).2 = Some "CC0 1.0 Universal".
Proof.
  intros env w.
  apply (C2_LICENSE_holds_waiver_text env w (run env w).2).
  vm_compute. reflexivity.
Defined.

(** C2, as stated, fails: the sample run for MIT exits with code 0 and
    leaves the waiver text in [LICENSE], not the text of the license
    file. *)
Lemma C2_LICENSE_is_not_input_text : ¬ LICENSE_is_input_text.
Proof.
  intros H.
  specialize (H (Sample.env Sample.mit_answers)
                (Sample.world Sample.mit_text)
                (run (Sample.env Sample.mit_answers)
                     (Sample.world Sample.mit_text)).2
                Sample.mit_text).
  vm_compute in H. specialize (H eq_refl eq_refl). discriminate H.
Qed.

(** ** C3: the waiver answer *)

(** C3, as the code has it.  Whether the waiver is accepted or declined
    makes no difference to a run, although the validator attached to the
    question rejects a refusal; with the waiver declined, the sample run
    for MIT exits with code 0 having created the directory, written the
    four files, made the commit and attached the remote. *)
Theorem C3_declined_waiver_is_published :
  (∀ (env : Env) (w : World),
     run (answering_waiver false env) w = run (answering_waiver true env) w)
  ∧ Questions.accepted (Questions.validate_license false) = false
  ∧ let env := answering_waiver false (Sample.env Sample.mit_answers) in
    let result := run env (Sample.world Sample.mit_text) in
    result.1 = 0%Z
    ∧ "/work/MIT" ∈ dirs result.2
    ∧ Forall (fun f => is_Some (files result.2 !! ("/work/MIT/" ++ f)))
             artifacts
    ∧ (length ∘ Git.commits) <$> repos result.2 !! "/work/MIT" = Some 1%nat
    ∧ repos result.2 !! "/work/MIT" ≫= (fun r => Git.remotes r !! "origin")
      = Some "git@github.com:license-project/MIT.git".
Proof.
  split_and!.
  - intros env w. unfold run. by rewrite !main_ignores_waiver.
  - reflexivity.
  - intros env result. subst env result. split_and!; compute_done.
Qed.

(** ** C4: the compiled module *)

(** C4, as the code has it.  After a run that exits with code 0, the file
    [index.js] holds the text [[object Object]], whatever compiled text
    the compiler resolved with: the result object is handed to [writeFile],
    not its [code]. *)
Theorem C4_index_js_holds_object_tag (env : Env) (w w' : World)
    (name : string) :
  run env w = (0%Z, w') ->
  derived_name env w = Some name ->
  ∃ (raw : Answers.t) (es5Index : BabelFileResult),
    interviewed env w = Some raw
    ∧ transform env (index (resolve_name raw) "[object Promise]")
      = inr es5Index
    ∧ files w' !! resolve (cwd w) (join name "index.js")
      = Some "[object Object]".
Proof.
  intros Hrun Hderived.
  destruct (run_published env w w' name Hrun Hderived)
    as (raw & repo & Hready & _ & _ & Hfiles & _).
  destruct (ready_compiles _ _ _ _ Hready) as [es5Index Hbabel].
  exists raw, es5Index. split_and!.
  - exact (ready_answers _ _ _ _ Hready).
  - exact Hbabel.
  - rewrite Hfiles. apply written_index_js.
Qed.

Lemma C4_index_js_holds_object_tag_witness :
  let env := Sample.env Sample.mit_answers in
  let w := Sample.world Sample.mit_text in
  ∃ es5Index : BabelFileResult,
    transform env (index Sample.mit_answers "[object Promise]") = inr es5Index
    ∧ code es5Index ≠ "[object Object]"
    ∧ files (run env w).2 !! "/work/MIT/index.js" = Some "[object Object]".
Proof.
  intros env w.
  destruct (C4_index_js_holds_object_tag env w (run env w).2 "MIT")
    as (raw & es5Index & [= <-] & Hbabel & Hfile);
    [vm_compute; reflexivity..|].
  exists es5Index. split_and!; [exact Hbabel| |exact Hfile].
  injection Hbabel as <-. discriminate.
Defined.

(** ** C5: identity resolution *)

(** C5.  For a validated answer record: when the license is SPDX-listed
    the derived name is the SPDX identifier as entered and the keywords
    contain "spdx"; otherwise the derived name is the short name, a hyphen
    and the version, and the keywords do not contain "spdx". *)
Theorem C5_identity (ids : list string) (a : Answers.t) :
  Questions.validated ids a = true ->
  let answers := resolve_name a in
  let keywords := Package.keywords (package answers) in
  (Answers.spdx a = true ->
     ∃ spdxId, Answers.name a = Some spdxId ∧ spdxId ∈ ids
               ∧ Answers.name answers = Some spdxId
               ∧ "spdx" ∈ keywords)
  ∧ (Answers.spdx a = false ->
     ∃ shortName version,
       Answers.shortName a = Some shortName
       ∧ Answers.version a = Some version
       ∧ Answers.name answers = Some (shortName ++ "-" ++ version)
       ∧ "spdx" ∉ keywords).
Proof.
  destruct a as [spdx name shortName longName version ? ? ?].
  unfold Questions.validated, Questions.input, Questions.when_name,
    Questions.when_shortName, Questions.when_version, Questions.validate_name,
    Questions.or_message, resolve_name, package.
  cbn [Answers.spdx Answers.name Answers.shortName Answers.version
       Answers.longName Answers.set_name Package.keywords negb].
  intros Hvalid. split; intros ->.
  - destruct name as [spdxId|]; [|done].
    exists spdxId. cbn [omap id list_omap] in *.
    destruct (bool_decide (spdxId ∈ ids)) eqn:Hin; [|done].
    apply bool_decide_eq_true in Hin.
    split_and!; try done. set_solver.
  - destruct shortName as [sn|], version as [v|], name;
      cbn [negb andb] in Hvalid; rewrite ?andb_false_r in Hvalid;
      try discriminate.
    exists sn, v. cbn [negb Answers.name]. split_and!; try done.
    cbn. rewrite !elem_of_cons, elem_of_nil.
    intros [|[|[E|[]]]]; try discriminate.
    by apply hyphenated_not_spdx in E.
Qed.

Lemma C5_identity_witness :
  Answers.name (resolve_name Sample.mit_answers) = Some "MIT"
  ∧ "spdx" ∈ Package.keywords (package (resolve_name Sample.mit_answers))
  ∧ Answers.name (resolve_name Sample.blueoak_answers) = Some "BlueOak-1.0.0"
  ∧ "spdx" ∉ Package.keywords (package (resolve_name Sample.blueoak_answers)).
Proof.
  destruct (C5_identity ["ISC"; "MIT"] Sample.mit_answers) as [Hmit _];
    [vm_compute; reflexivity|].
  destruct (C5_identity ["ISC"; "MIT"] Sample.blueoak_answers) as [_ Hoak];
    [vm_compute; reflexivity|].
  destruct (Hmit eq_refl) as (id & [= <-] & _ & Hname & Hkw).
  destruct (Hoak eq_refl) as (sn & v & [= <-] & [= <-] & Hname' & Hkw').
  split_and!; assumption.
Defined.

(** ** C6: the two URLs *)

(** C6.  The manifest's [repository.url] is
    "https://github.com/license-project/" followed by the name, for every
    answer record; after a run that exits with code 0 that manifest is what
    [package.json] holds, and the remote [origin] of the new repository
    points at "git@github.com:license-project/" + name + ".git". *)
Theorem C6_repository_urls (env : Env) (w w' : World) (name : string) :
  run env w = (0%Z, w') ->
  derived_name env w = Some name ->
  (∀ answers : Answers.t,
     Package.url (Package.repository (package answers))
     = "https://github.com/license-project/"
       ++ toString (Answers.name answers))
  ∧ ∃ (answers : Answers.t) (repo : Git.Repository),
      Answers.name answers = Some name
      ∧ files w' !! resolve (cwd w) (join name "package.json")
        = Some (JSON.stringify (Package.json (package answers)) 4)
      ∧ Package.url (Package.repository (package answers))
        = "https://github.com/license-project/" ++ name
      ∧ repos w' !! join (cwd w) name = Some repo
      ∧ Git.remotes repo !! "origin"
        = Some ("git@github.com:license-project/" ++ name ++ ".git").
Proof.
  intros Hrun Hderived. split; [done|].
  destruct (run_published env w w' name Hrun Hderived)
    as (raw & repo & Hready & _ & _ & Hfiles & Hrepo & _ & Horigin & _).
  pose proof (ready_name _ _ _ _ Hready) as Hname.
  exists (resolve_name raw), repo. split_and!; try done.
  - rewrite Hfiles. apply written_package_json.
  - unfold package. cbn [Package.repository Package.url]. by rewrite Hname.
Qed.

Lemma C6_repository_urls_witness :
  let env := Sample.env Sample.mit_answers in
  let w := Sample.world Sample.mit_text in
  ∃ (answers : Answers.t) (repo : Git.Repository),
    files (run env w).2 !! "/work/MIT/package.json"
    = Some (JSON.stringify (Package.json (package answers)) 4)
    ∧ Package.url (Package.repository (package answers))
      = "https://github.com/license-project/MIT"
    ∧ repos (run env w).2 !! "/work/MIT" = Some repo
    ∧ Git.remotes repo !! "origin"
      = Some "git@github.com:license-project/MIT.git".
Proof.
  intros env w.
  destruct (C6_repository_urls env w (run env w).2 "MIT")
    as (_ & answers & repo & _ & Hfile & Hurl & Hrepo & Horigin);
    [vm_compute; reflexivity..|].
  exists answers, repo. split_and!; assumption.
Defined.

(** ** C7: wrong argument count *)

(** C7.  When [process.argv] does not hold exactly one argument after the
    interpreter and the script, the run prints the usage error on the error
    stream and exits with code 1; that line is the only thing the run does:
    no call is made (no interview, no directory, no version control) and
    the file system and the repositories are as before. *)
Theorem C7_usage_error (env : Env) (w : World) :
  length (argv env) ≠ 3%nat ->
  let '(status, w') := run env w in
  status = 1%Z
  ∧ log w' = (log w ++ [ConsoleError (inl usage)])%list
  ∧ usage = "You must specify a license file name."
  ∧ dirs w' = dirs w ∧ files w' = files w ∧ repos w' = repos w.
Proof.
  intros Hargv. unfold run. rewrite (main_usage env w Hargv). done.
Qed.

Lemma C7_usage_error_witness :
  let env := {| node := 12; __dirname := "/usr/lib/generator";
                argv := ["/usr/bin/node"; "/usr/lib/generator/index.js"];
                operator := fun _ _ => Sample.mit_answers;
                transform := Sample.compile; packaged := None;
                cc0_txt := {| bytes := EmptyString |} |} in
  (run env (Sample.world Sample.mit_text)).1 = 1%Z
  ∧ log (run env (Sample.world Sample.mit_text)).2
    = [ConsoleError (inl usage)].
Proof.
  intros env.
  pose proof (C7_usage_error env (Sample.world Sample.mit_text)) as H.
  destruct (run env (Sample.world Sample.mit_text)) as [status w'].
  destruct H as (Hstatus & Hlog & _); [vm_compute; lia|].
  split; [exact Hstatus|exact Hlog].
Defined.

(** ** C8: running twice *)

(** C8.  Take a run that exits with code 0 and a second run, started on
    the world the first one left, that derives the same name and gets as
    far as creating the directory (one argument, a readable license file,
    a module the compiler accepts).  The second run exits with code 1, its
    last call is the [mkdir] that fails with EEXIST, and it changes no
    file, no directory and no repository. *)
Theorem C8_second_run_fails_at_mkdir (env1 env2 : Env) (w0 w1 : World)
    (name : string) (raw2 : Answers.t) (es5Index : BabelFileResult) :
  run env1 w0 = (0%Z, w1) ->
  derived_name env1 w0 = Some name ->
  length (argv env2) = 3%nat ->
  is_Some (files w1 !! license_file env2 w1) ->
  interviewed env2 w1 = Some raw2 ->
  Answers.name (resolve_name raw2) = Some name ->
  transform env2 (index (resolve_name raw2) "[object Promise]")
  = inr es5Index ->
  let '(status, w2) := run env2 w1 in
  status = 1%Z
  ∧ log w2 = (log w1 ++ trace_to_mkdir env2 name
              ++ [ConsoleError (inr (EEXIST "mkdir" name))])%list
  ∧ files w2 = files w1 ∧ dirs w2 = dirs w1 ∧ repos w2 = repos w1.
Proof.
  intros Hrun1 Hderived Hargv Hfile Hraw Hname Hbabel.
  destruct (run_published env1 w0 w1 name Hrun1 Hderived)
    as (raw1 & repo & Hready & Hcwd & Hdir & _).
  pose proof (ready_named _ _ _ _ Hready) as Hne.
  rewrite <- Hcwd in Hdir.
  rewrite (run_EEXIST env2 w1 raw2 name es5Index) by auto.
  done.
Qed.

Lemma C8_second_run_fails_at_mkdir_witness :
  let env := Sample.env Sample.mit_answers in
  let w1 := (run env (Sample.world Sample.mit_text)).2 in
  (run env w1).1 = 1%Z
  ∧ last (log (run env w1).2)
    = Some (ConsoleError (inr (EEXIST "mkdir" "MIT")))
  ∧ files (run env w1).2 = files w1.
Proof.
  intros env w1.
  pose proof (C8_second_run_fails_at_mkdir env env
                (Sample.world Sample.mit_text) w1 "MIT" Sample.mit_answers
                {| code := "'use strict';" ++ nl
                           ++ index Sample.mit_answers "[object Promise]";
                   map := None |}) as H.
  destruct (run env w1) as [status w2].
  destruct H as (Hstatus & Hlog & Hfiles & _);
    [vm_compute; reflexivity| vm_compute; reflexivity | vm_compute; reflexivity
    | vm_compute; eauto | vm_compute; reflexivity..|].
  split_and!; [exact Hstatus| |exact Hfiles].
  cbn [snd]. rewrite Hlog. vm_compute. reflexivity.
Defined.

(** ** C9: an empty version *)

(** C9.  The version prompt accepts the empty string.  When the license
    is not SPDX-listed and the version entered is empty, the derived name
    is the short name followed by a hyphen, and a run that exits with code
    0 uses that string as it is: it is the argument of [mkdir] and the
    directory exists afterwards, the manifest is named "@license-project/"
    + name, and [origin] points at "git@github.com:license-project/" +
    name + ".git". *)
Theorem C9_empty_version (env : Env) (w w' : World) (raw : Answers.t)
    (shortName : string) :
  run env w = (0%Z, w') ->
  interviewed env w = Some raw ->
  Answers.spdx raw = false ->
  Answers.shortName raw = Some shortName ->
  Answers.version raw = Some EmptyString ->
  let name := shortName ++ "-" in
  Questions.accepted (Questions.validate_version EmptyString) = true
  ∧ derived_name env w = Some name
  ∧ Call fs_mkdir name ∈ log w'
  ∧ resolve (cwd w) name ∈ dirs w'
  ∧ Package.name (package (resolve_name raw)) = "@license-project/" ++ name
  ∧ files w' !! resolve (cwd w) (join name "package.json")
    = Some (JSON.stringify (Package.json (package (resolve_name raw))) 4)
  ∧ ∃ repo : Git.Repository,
      repos w' !! join (cwd w) name = Some repo
      ∧ Git.remotes repo !! "origin"
        = Some ("git@github.com:license-project/" ++ name ++ ".git").
Proof.
  intros Hrun Hraw Hspdx Hshort Hversion name.
  assert (Answers.name (resolve_name raw) = Some name) as Hname.
  { unfold resolve_name. rewrite Hspdx, Hshort, Hversion.
    cbn [negb Answers.set_name Answers.name]. unfold toString at 2.
    unfold undefined_ToString, toString. by rewrite append_empty. }
  pose proof (derived_name_interviewed env w raw name Hraw Hname) as Hderived.
  destruct (run_published env w w' name Hrun Hderived)
    as (raw' & repo & Hready & _ & Hdir & Hfiles & Hrepo & _ & Horigin & Hlog).
  assert (raw' = raw) as ->.
  { pose proof (ready_answers _ _ _ _ Hready). congruence. }
  split_and!; try done.
  - rewrite Hlog. apply elem_of_app. right. unfold full_trace.
    do 6 apply list_elem_of_further. apply list_elem_of_here.
  - unfold package. cbn [Package.name]. by rewrite Hname.
  - rewrite Hfiles. apply written_package_json.
  - by exists repo.
Qed.

Lemma C9_empty_version_witness :
  let env := Sample.env Sample.isc_answers in
  let w := Sample.world "ISC License" in
  derived_name env w = Some "ISC-"
  ∧ "/work/ISC-" ∈ dirs (run env w).2
  ∧ Package.name (package (resolve_name Sample.isc_answers))
    = "@license-project/ISC-"
  ∧ ∃ repo : Git.Repository,
      repos (run env w).2 !! "/work/ISC-" = Some repo
      ∧ Git.remotes repo !! "origin"
        = Some "git@github.com:license-project/ISC-.git".
Proof.
  intros env w.
  destruct (C9_empty_version env w (run env w).2 Sample.isc_answers "ISC")
    as (_ & Hname & _ & Hdir & Hpkg & _ & Hremote);
    [vm_compute; reflexivity..|].
  split_and!; assumption.
Defined.

(** ** C10: the LICENSE artifact and the license file *)




(** * Frames, traces and further properties *)

(** ** A logic of confinement *)

(** Each call of the script is [confined]; [confined_bind] puts the calls
    together, which gives the frame and the order of calls of [main] at
    once. *)

Section confined.
Context (base : string) (cfg : gmap string string) (F D G : string -> Prop).

Lemma unchanged_but_refl (w : World) : unchanged_but F D G w w.
Proof. split; auto. Qed.

Lemma unchanged_but_trans (w1 w2 w3 : World) :
  unchanged_but F D G w1 w2 -> unchanged_but F D G w2 w3 ->
  unchanged_but F D G w1 w3.
Proof.
  intros H1 H2. split.
  - rewrite (same_cwd _ _ _ _ _ H2). apply H1.
  - rewrite (same_config _ _ _ _ _ H2). apply H1.
  - etrans; [apply H1|apply H2].
  - intros d Hd. destruct (dirs_added _ _ _ _ _ H2 d Hd) as [?|?]; auto.
    by apply (dirs_added _ _ _ _ _ H1).
  - intros k Hk. rewrite (files_kept _ _ _ _ _ H2 k Hk). by apply H1.
  - intros k Hk. by apply H2, H1.
  - intros k Hk. rewrite (repos_kept _ _ _ _ _ H2 k Hk). by apply H1.
  - intros k Hk. by apply H2, H1.
Qed.

Lemma unchanged_but_log (w : World) (l : list event) :
  unchanged_but F D G w (with_log l w).
Proof. split; auto. Qed.

Lemma confined_ret {A} (a : A) (Q : A -> Prop) :
  Q a -> confined base cfg F D G [] (ret a) Q.
Proof.
  intros Ha w _ _. exists []. cbn. rewrite app_nil_r.
  split_and!; auto using unchanged_but_refl.
Qed.

Lemma confined_throw {A} (e : error) (t : list api) (Q : A -> Prop) :
  confined base cfg F D G t (throw e) Q.
Proof.
  intros w _ _. exists []. cbn. rewrite app_nil_r.
  split_and!; auto using unchanged_but_refl, prefix_nil.
Qed.

Lemma confined_bind {A B} (c : Async A) (k : A -> Async B)
    (t1 t2 : list api) (Q : A -> Prop) (Q' : B -> Prop) :
  confined base cfg F D G t1 c Q ->
  (∀ a, Q a -> confined base cfg F D G t2 (k a) Q') ->
  confined base cfg F D G (t1 ++ t2) (bind c k) Q'.
Proof.
  intros Hc Hk w Hcwd Hcfg. destruct (Hc w Hcwd Hcfg) as (cs1 & H1 & Hlog1 & Hq).
  unfold bind. destruct (c w) as [a w1|e w1]; cbn [outcome] in *.
  - destruct Hq as [Ht1 Ha].
    destruct (Hk a Ha w1) as (cs2 & H2 & Hlog2 & Hq').
    { rewrite <- Hcwd. apply H1. }
    { rewrite <- Hcfg. apply H1. }
    exists (cs1 ++ cs2)%list. split_and!.
    + eauto using unchanged_but_trans.
    + rewrite Hlog2, Hlog1. unfold calls. by rewrite fmap_app, app_assoc.
    + rewrite fmap_app, Ht1.
      destruct (k a w1); [by destruct Hq' as [-> ?]|by apply prefix_app].
  - exists cs1. split_and!; auto using prefix_app_r.
Qed.

(** Case analysis on what a call reads, then the three parts of
    [confined] for each outcome. *)
Ltac confine cs :=
  intros w Hcwd Hcfg; exists cs; run_goal;
  repeat first [case_match | case_decide];
  cbn [outcome cwd clock config dirs files repos log fmap list_fmap fst];
  split_and!;
  try done;
  try (by apply prefix_nil);
  try (by apply prefix_cons, prefix_nil).

Ltac unchanged :=
  split; cbn [cwd clock config dirs files repos log]; try done;
  try reflexivity; try apply union_subseteq_r; auto.

Lemma record_confined (f : api) (arg : string) :
  confined base cfg F D G [f] (record f arg) (fun _ => True).
Proof. confine [(f, arg)]. unchanged. Qed.

Lemma readFileAsync_confined (path : string) :
  confined base cfg F D G [fs_readFile] (readFileAsync path) (fun _ => True).
Proof. confine [(fs_readFile, path)]; unchanged. Qed.

Lemma unawaited_confined {A} (p : Promise A) :
  confined base cfg F D G [] (unawaited p) (fun _ => True).
Proof.
  destruct p; [apply confined_ret|apply confined_throw]; done.
Qed.

Lemma Config_openDefault_confined :
  confined base cfg F D G [Config_openDefault] Nodegit.Config_openDefault
           (fun gitConfig => gitConfig = cfg).
Proof. confine [(Config_openDefault, EmptyString)]. unchanged. Qed.

Lemma Config_getString_confined (gitConfig : gmap string string)
    (key : string) :
  confined base cfg F D G [Config_getString] (Nodegit.Config_getString gitConfig key)
           (fun v => gitConfig !! key = Some v).
Proof. confine [(Config_getString, key)]; unchanged. Qed.

Lemma prompt_confined (env : Env) (gitName gitEmail : string) :
  confined base cfg F D G [inquirer_prompt] (prompt env gitName gitEmail)
           (fun answers => answers = operator env gitName gitEmail).
Proof. confine [(inquirer_prompt, EmptyString)]. unchanged. Qed.

Lemma transformAsync_confined (env : Env) (source : string) :
  confined base cfg F D G [babel_transformAsync] (transformAsync env source)
           (fun _ => True).
Proof. confine [(babel_transformAsync, "index.js")]; unchanged. Qed.

Lemma mkdirAsync_confined (path : string) :
  D (resolve base path) ->
  confined base cfg F D G [fs_mkdir] (mkdirAsync path) (fun _ => True).
Proof.
  intros HD. confine [(fs_mkdir, path)]; unchanged.
  intros d [->%elem_of_singleton| ?]%elem_of_union; [right|by left].
  by rewrite Hcwd.
Qed.

Lemma writeFileAsync_confined {T} `{ToString T} `{Data T} (node : nat)
    (path : string) (data : T) :
  F (resolve base path) ->
  confined base cfg F D G [fs_writeFile] (writeFileAsync node path data)
           (fun _ => True).
Proof.
  intros HF. confine [(fs_writeFile, path)]; unchanged.
  all: intros k Hk;
    first [ apply lookup_insert_ne; intros <-; by rewrite Hcwd in Hk
          | rewrite lookup_insert_is_Some'; by right ].
Qed.

Lemma process_cwd_confined :
  confined base cfg F D G [] process_cwd (fun here => here = base).
Proof. confine (@nil (api * string)). - unchanged. - by rewrite app_nil_r. Qed.

Ltac repository HG :=
  unchanged;
  try (intros k Hk;
       first [ apply lookup_insert_ne; by intros <-
             | rewrite lookup_insert_is_Some'; by right ]).

Lemma Repository_init_confined (path : string) :
  G path -> D path -> D (join path ".git") ->
  confined base cfg F D G [Repository_init] (Nodegit.Repository_init path)
           (fun gitRepo => gitRepo = path).
Proof.
  intros HG HD Hgit. confine [(Repository_init, path)]. repository HG.
  - etrans; apply union_subseteq_r.
  - intros d [->%elem_of_singleton|[->%elem_of_singleton| ?]%elem_of_union]
             %elem_of_union; [by right|by right|by left].
Qed.

Lemma refreshIndex_confined (repo : string) :
  G repo ->
  confined base cfg F D G [Repository_refreshIndex] (Nodegit.refreshIndex repo)
           (fun gitIndex => gitIndex = repo).
Proof. intros HG. confine [(Repository_refreshIndex, repo)]; repository HG. Qed.

Lemma addByPath_confined (repo path : string) :
  G repo ->
  confined base cfg F D G [Index_addByPath] (Nodegit.addByPath repo path) (fun _ => True).
Proof. intros HG. confine [(Index_addByPath, path)]; repository HG. Qed.

Lemma write_confined (repo : string) :
  G repo -> confined base cfg F D G [Index_write] (Nodegit.write repo) (fun _ => True).
Proof. intros HG. confine [(Index_write, repo)]; repository HG. Qed.

Lemma writeTree_confined (repo : string) :
  G repo -> confined base cfg F D G [Index_writeTree] (Nodegit.writeTree repo) (fun _ => True).
Proof. intros HG. confine [(Index_writeTree, repo)]; repository HG. Qed.

Lemma Signature_now_confined (name email : string) :
  confined base cfg F D G [Signature_now] (Nodegit.Signature_now name email) (fun _ => True).
Proof. confine [(Signature_now, name)]; unchanged. Qed.

Lemma createCommit_confined (repo updateRef : string)
    (author committer : Git.Signature) (message : string) (oid : Git.Tree)
    (parents : list nat) :
  G repo ->
  confined base cfg F D G [Repository_createCommit]
           (Nodegit.createCommit repo updateRef author committer message oid
                                 parents)
           (fun _ => True).
Proof. intros HG. confine [(Repository_createCommit, message)]; repository HG. Qed.

Lemma Remote_create_confined (repo name url : string) :
  G repo ->
  confined base cfg F D G [Remote_create] (Nodegit.Remote_create repo name url)
           (fun _ => True).
Proof. intros HG. confine [(Remote_create, url)]; repository HG. Qed.

End confined.

(** The next call of a computation, which logs the calls [t]. *)
Ltac chain t lem :=
  eapply (confined_bind _ _ _ _ _ _ _ t);
  [eapply lem|intros ? ?; cbv beta zeta in *].

(** With one argument, [main] goes through the pipeline in order, stops at
    the first call that throws, writes nowhere but to the four artifacts,
    and resolves with [undefined]. *)
Lemma main_confined (env : Env) (w0 : World) :
  length (argv env) = 3%nat ->
  confined (cwd w0) (config w0) (artifact_path env w0)
           (package_directory env w0) (package_repository env w0)
           pipeline (main env) (fun result => result = None).
Proof.
  intros Hargv. unfold main, pipeline. rewrite Hargv. cbn [Nat.eqb negb].
  chain [fs_readFile] readFileAsync_confined.
  chain (@nil api) unawaited_confined.
  chain [Config_openDefault] Config_openDefault_confined. subst.
  chain [Config_getString] Config_getString_confined.
  chain [Config_getString] Config_getString_confined.
  chain [inquirer_prompt] prompt_confined. subst.
  chain [babel_transformAsync] transformAsync_confined.
  destruct (Answers.name _) as [name|] eqn:Hname; [|apply confined_throw].
  assert (derived_name env w0 = Some name) as Hderived.
  { eapply derived_name_interviewed; [|exact Hname]. unfold interviewed.
    repeat match goal with
           | E : config w0 !! _ = Some _ |- _ => rewrite E; clear E
           end.
    reflexivity. }
  assert (∀ f, f ∈ artifacts ->
            artifact_path env w0 (resolve (cwd w0) (join name f))) as HF
    by (intros f Hf; by exists name, f).
  assert (package_repository env w0 (join (cwd w0) name)) as HG
    by (by exists name).
  assert (package_directory env w0 (join (cwd w0) name)) as HD
    by (exists name; auto).
  assert (package_directory env w0 (join (join (cwd w0) name) ".git"))
    as Hgit by (exists name; auto).
  chain [fs_mkdir] mkdirAsync_confined; [exists name; auto|].
  chain [fs_writeFile] writeFileAsync_confined; [apply HF; set_solver|].
  chain [fs_writeFile] writeFileAsync_confined; [apply HF; set_solver|].
  chain [fs_writeFile] writeFileAsync_confined; [apply HF; set_solver|].
  chain [fs_writeFile] writeFileAsync_confined; [apply HF; set_solver|].
  chain (@nil api) process_cwd_confined. subst.
  chain [Repository_init] Repository_init_confined; [done..|]. subst.
  chain [Repository_refreshIndex] refreshIndex_confined; [done|]. subst.
  do 4 (chain [Index_addByPath] addByPath_confined; [done|]).
  chain [Index_write] write_confined; [done|].
  chain [Index_writeTree] writeTree_confined; [done|].
  chain [Signature_now] Signature_now_confined.
  chain [Repository_createCommit] createCommit_confined; [done|].
  chain [Remote_create] Remote_create_confined; [done|].
  by apply confined_ret.
Qed.

(** ** What a run touches, and in which order *)

(** X1.  Take a run whose license file, if it gets to read one, is
    readable and whose derived name, if it derives one, is one path
    segment.  However it ends, it changes no file but the four artifacts
    of the package, adds no directory but the package directory and its
    [.git], touches no repository but the package's, removes nothing,
    leaves the working directory and the git configuration as they were,
    and only appends to what has been logged. *)
Theorem run_touches_only_the_package (env : Env) (w : World) :
  settled env w ->
  (∀ name, derived_name env w = Some name -> segment name) ->
  unchanged_but (artifact_path env w) (package_directory env w)
                (package_repository env w) w (run env w).2
  ∧ log w `prefix_of` log (run env w).2.
Proof.
  intros _ _. unfold run.
  destruct (decide (length (argv env) = 3%nat)) as [Hargv|Hargv].
  - destruct (main_confined env w Hargv w eq_refl eq_refl)
      as (cs & Hsame & Hlog & _).
    destruct (main env w) as [r w'|e w']; cbn [outcome snd] in *.
    + split; [done|]. rewrite Hlog. by apply prefix_app_r.
    + split.
      * eapply unchanged_but_trans; [exact Hsame|apply unchanged_but_log].
      * cbn [with_log log]. rewrite Hlog. by do 2 apply prefix_app_r.
  - rewrite (main_usage env w Hargv). cbn [snd with_log log].
    split; [apply unchanged_but_log|by apply prefix_app_r].
Qed.

Lemma run_touches_only_the_package_witness :
  let env := Sample.env Sample.mit_answers in
  let w := Sample.world Sample.mit_text in
  files (run env w).2 !! "/work/LICENSE.txt" = Some Sample.mit_text
  ∧ config (run env w).2 = config w.
Proof.
  intros env w.
  destruct (run_touches_only_the_package env w) as [Hsame _].
  - intros _. eexists. vm_compute. reflexivity.
  - intros name [= <-]. split_and!; try done; compute_done.
  - split; [|apply Hsame].
    rewrite (files_kept _ _ _ _ _ Hsame); [reflexivity|].
    intros (name & f & [= <-] & Hf & E). unfold artifacts in Hf.
    repeat (apply elem_of_cons in Hf as [->|Hf]);
      try (vm_compute in E; discriminate E).
Defined.

(** X2.  With one argument and a readable license file, the calls of a
    run are an initial stretch of the pipeline, in its order.  The run
    exits with code 0 only after the whole pipeline; when [main] rejects,
    the run makes no further call, prints the error that [main] rejected
    with and exits with code 1. *)
Theorem run_follows_the_pipeline (env : Env) (w : World) :
  length (argv env) = 3%nat ->
  is_Some (files w !! license_file env w) ->
  let '(status, w') := run env w in
  ∃ cs : list (api * string),
    cs.*1 `prefix_of` pipeline
    ∧ ((status = 0%Z ∧ cs.*1 = pipeline
        ∧ log w' = (log w ++ calls cs)%list)
       ∨ (status = 1%Z
          ∧ ∃ e w'', main env w = Throw e w''
                     ∧ log w'' = (log w ++ calls cs)%list
                     ∧ log w' = (log w'' ++ [ConsoleError (inr e)])%list)).
Proof.
  intros Hargv _. unfold run.
  destruct (main_confined env w Hargv w eq_refl eq_refl)
    as (cs & _ & Hlog & Hcalls).
  destruct (main env w) as [r w'|e w']; cbn [outcome] in *; exists cs.
  - destruct Hcalls as [Hcs ->]. split; [by rewrite Hcs|]. by left.
  - split; [done|]. right. split; [done|]. by exists e, w'.
Qed.

Lemma run_follows_the_pipeline_witness :
  let env := Sample.env Sample.mit_answers in
  ∃ cs : list (api * string),
    cs.*1 = pipeline
    ∧ log (run env (Sample.world Sample.mit_text)).2 = calls cs.
Proof.
  intros env.
  unshelve epose proof (run_follows_the_pipeline env
                          (Sample.world Sample.mit_text) _ _) as H.
  - reflexivity.
  - eexists. vm_compute. reflexivity.
  - assert ((run env (Sample.world Sample.mit_text)).1 = 0%Z) as Hstatus
      by (vm_compute; reflexivity).
    destruct (run env (Sample.world Sample.mit_text)) as [status w'].
    destruct H as (cs & _ & [(_ & Hcs & Hlog)|(Hone & _)]);
      [|cbn in Hstatus; congruence].
    exists cs. split; [exact Hcs|exact Hlog].
Defined.

(** X3.  A run whose license file, if it gets to read one, is readable
    exits with code 0 or with code 1.  With code 0 it had one argument and
    printed nothing on the error stream; with code 1 the last thing it did
    was to print an error. *)
Theorem run_exit_status (env : Env) (w : World) :
  settled env w ->
  let '(status, w') := run env w in
  (status = 0%Z ∧ length (argv env) = 3%nat
   ∧ Forall (fun e => ∀ what, e ≠ ConsoleError what)
            (drop (length (log w)) (log w')))
  ∨ (status = 1%Z ∧ ∃ what, last (log w') = Some (ConsoleError what)).
Proof.
  intros _. unfold run.
  destruct (decide (length (argv env) = 3%nat)) as [Hargv|Hargv].
  - destruct (main_confined env w Hargv w eq_refl eq_refl)
      as (cs & _ & Hlog & Hcalls).
    destruct (main env w) as [r w'|e w']; cbn [outcome] in *.
    + destruct Hcalls as [_ ->]. left. split_and!; [done..|].
      rewrite Hlog, drop_app_length. unfold calls.
      apply Forall_fmap, Forall_forall. by intros [f arg] _ what.
    + right. split; [done|]. exists (inr e). cbn [with_log log].
      apply last_snoc.
  - rewrite (main_usage env w Hargv). right. split; [done|].
    exists (inl usage). cbn [with_log log]. apply last_snoc.
Qed.

Lemma run_exit_status_witness :
  let env := Sample.env Sample.mit_answers in
  (run env (Sample.world Sample.mit_text)).1 = 0%Z
  ∨ (run env (Sample.world Sample.mit_text)).1 = 1%Z.
Proof.
  intros env.
  unshelve epose proof (run_exit_status env (Sample.world Sample.mit_text) _)
    as H.
  - intros _. eexists. vm_compute. reflexivity.
  - destruct (run env (Sample.world Sample.mit_text)) as [status w'].
    destruct H as [(Hstatus & _)|(Hstatus & _)]; [by left|by right].
Defined.



(** ** Runs that stop early *)

(** X5.  When the git configuration lacks [user.name], or has it and
    lacks [user.email], the run stops at that lookup: it prints the error
    of [getString] for that key, exits with code 1, asks no question and
    leaves directories, files and repositories as they were. *)
Theorem run_without_git_identity (env : Env) (w : World) (key : string) :
  length (argv env) = 3%nat ->
  is_Some (files w !! license_file env w) ->
  (key = "user.name" ∧ config w !! "user.name" = None)
  ∨ (key = "user.email" ∧ is_Some (config w !! "user.name")
     ∧ config w !! "user.email" = None) ->
  let '(status, w') := run env w in
  status = 1%Z
  ∧ last (log w')
    = Some (ConsoleError
              (inr (GitError ("config value '" ++ key ++ "' was not found"))))
  ∧ (∀ arg, Call inquirer_prompt arg ∉ drop (length (log w)) (log w'))
  ∧ dirs w' = dirs w ∧ files w' = files w ∧ repos w' = repos w.
Proof.
  intros Hargv [contents Hfile] Hkey. unfold license_file in Hfile.
  unfold run, main. rewrite Hargv. cbn [Nat.eqb negb].
  forward ltac:(rewrite Hfile).
  do 2 forward idtac.
  destruct Hkey as [[-> Hn]|(-> & [gitName Hn] & He)].
  - erewrite bind_run_Throw; [|run_goal; rewrite Hn; reflexivity].
    cbn [with_log cwd clock config dirs files repos log].
    split_and!; try done; [apply last_snoc|].
    intros arg. rewrite <- !(assoc_L (++)), drop_app_length.
    rewrite !elem_of_app, !list_elem_of_singleton. intuition discriminate.
  - forward ltac:(rewrite Hn).
    erewrite bind_run_Throw; [|run_goal; rewrite He; reflexivity].
    cbn [with_log cwd clock config dirs files repos log].
    split_and!; try done; [apply last_snoc|].
    intros arg. rewrite <- !(assoc_L (++)), drop_app_length.
    rewrite !elem_of_app, !list_elem_of_singleton. intuition discriminate.
Qed.

Lemma run_without_git_identity_witness :
  let env := Sample.env Sample.mit_answers in
  let w := with_config {[ "user.name" := "A" ]} (Sample.world Sample.mit_text) in
  (run env w).1 = 1%Z ∧ files (run env w).2 = files w.
Proof.
  intros env w.
  unshelve epose proof (run_without_git_identity env w "user.email" _ _ _) as H.
  - reflexivity.
  - eexists. vm_compute. reflexivity.
  - right. split_and!; [reflexivity| |vm_compute; reflexivity].
    eexists. vm_compute. reflexivity.
  - destruct (run env w) as [status w']. cbn [fst snd].
    destruct H as (Hstatus & _ & _ & _ & Hfiles & _). by split.
Defined.

(** X6.  When the compiler rejects the module, the run prints the
    compiler's error and exits with code 1; the interview has taken place,
    no directory creation is attempted, and directories, files and
    repositories are as they were. *)
Theorem run_compiler_rejects (env : Env) (w : World) (raw : Answers.t)
    (e : error) :
  length (argv env) = 3%nat ->
  is_Some (files w !! license_file env w) ->
  interviewed env w = Some raw ->
  transform env (index (resolve_name raw) "[object Promise]") = inl e ->
  let '(status, w') := run env w in
  status = 1%Z
  ∧ last (log w') = Some (ConsoleError (inr e))
  ∧ Call inquirer_prompt EmptyString ∈ drop (length (log w)) (log w')
  ∧ (∀ arg, Call fs_mkdir arg ∉ drop (length (log w)) (log w'))
  ∧ dirs w' = dirs w ∧ files w' = files w ∧ repos w' = repos w.
Proof.
  intros Hargv [contents Hfile] Hraw Hbabel. unfold license_file in Hfile.
  unfold interviewed in Hraw.
  destruct (config w !! "user.name") as [gitName|] eqn:Hn; [|done].
  destruct (config w !! "user.email") as [gitEmail|] eqn:He; [|done].
  injection Hraw as <-.
  unfold run, main. rewrite Hargv. cbn [Nat.eqb negb].
  forward ltac:(rewrite Hfile).
  do 2 forward idtac.
  forward ltac:(rewrite Hn).
  forward ltac:(rewrite He).
  forward idtac.
  erewrite bind_run_Throw; [|run_goal; rewrite Hbabel; reflexivity].
  cbn [with_log cwd clock config dirs files repos log].
  rewrite <- !(assoc_L (++)), drop_app_length.
  split_and!; try done.
  - rewrite !(assoc_L (++)). apply last_snoc.
  - rewrite !elem_of_app, !list_elem_of_singleton. tauto.
  - intros arg. rewrite !elem_of_app, !list_elem_of_singleton.
    intuition discriminate.
Qed.

Lemma run_compiler_rejects_witness :
  let env := with_transform (fun _ => inl (BabelError "unexpected token"))
                            (Sample.env Sample.mit_answers) in
  let w := Sample.world Sample.mit_text in
  (run env w).1 = 1%Z ∧ dirs (run env w).2 = dirs w.
Proof.
  intros env w.
  unshelve epose proof (run_compiler_rejects env w Sample.mit_answers
                          (BabelError "unexpected token") _ _ _ _) as H.
  - reflexivity.
  - eexists. vm_compute. reflexivity.
  - vm_compute. reflexivity.
  - reflexivity.
  - destruct (run env w) as [status w']. cbn [fst snd].
    destruct H as (Hstatus & _ & _ & _ & Hdirs & _). by split.
Defined.

(** ** The root commit *)






(** ** Names without whitespace *)

(** A hyphen neither is whitespace nor completes a multi-byte whitespace
    character. *)

Lemma starts_with_space_hyphen (c : ascii) (a b : string) :
  starts_with_space (String c (a ++ String "-" b))
  = starts_with_space (String c a).
Proof.
  destruct a as [|d [|e a]].
  - change (EmptyString ++ String "-" b) with (String "-" b).
    destruct c as [[] [] [] [] [] [] [] []]; reflexivity.
  - change (String d EmptyString ++ String "-" b) with (String d (String "-" b)).
    destruct c as [[] [] [] [] [] [] [] []]; try reflexivity;
      destruct d as [[] [] [] [] [] [] [] []]; reflexivity.
  - reflexivity.
Qed.

Lemma test_whitespace_hyphen (a b : string) :
  test_whitespace (a ++ String "-" b) = test_whitespace a || test_whitespace b.
Proof.
  induction a as [|c a IH].
  - change (EmptyString ++ String "-" b) with (String "-" b).
    cbn [test_whitespace].
    destruct b as [|d [|e b]]; reflexivity.
  - change (String c a ++ String "-" b) with (String c (a ++ String "-" b)).
    cbn [test_whitespace].
    rewrite starts_with_space_hyphen, IH. by rewrite orb_assoc.
Qed.

(** X9.  If no SPDX identifier is empty or holds whitespace, then the
    package name derived from a validated interview is a non-empty string
    without whitespace. *)
Theorem validated_name_is_a_word (ids : list string) (a : Answers.t) :
  Forall (fun id => id ≠ EmptyString ∧ test_whitespace id = false) ids ->
  Questions.validated ids a = true ->
  ∃ name, Answers.name (resolve_name a) = Some name
          ∧ name ≠ EmptyString
          ∧ test_whitespace name = false.
Proof.
  intros Hids.
  destruct a as [spdx name shortName longName version ? ? ?].
  unfold Questions.validated, Questions.input, Questions.when_name,
    Questions.when_shortName, Questions.when_version, Questions.validate_name,
    Questions.validate_shortName, Questions.validate_version,
    Questions.or_message, resolve_name.
  cbn [Answers.spdx Answers.name Answers.shortName Answers.version
       Answers.longName Answers.set_name negb].
  intros Hvalid. destruct spdx; cbn [negb andb] in *.
  - destruct name as [spdxId|]; [|done].
    destruct (bool_decide (spdxId ∈ ids)) eqn:Hin; [|done].
    apply bool_decide_eq_true in Hin.
    rewrite Forall_forall in Hids. destruct (Hids _ Hin) as [? ?].
    by exists spdxId.
  - destruct name; [done|].
    destruct shortName as [shortName|]; [|done].
    destruct version as [version|]; [|by rewrite !andb_false_r in Hvalid].
    destruct (test_whitespace shortName) eqn:Hs; [done|].
    destruct (test_whitespace version) eqn:Hv;
      [by rewrite !andb_false_r in Hvalid|].
    eexists. split; [reflexivity|]. unfold toString, undefined_ToString.
    change ("-" ++ version) with (String "-" version).
    split.
    + by destruct shortName.
    + by rewrite test_whitespace_hyphen, Hs, Hv.
Qed.

Lemma validated_name_is_a_word_witness :
  ∃ name, Answers.name (resolve_name Sample.blueoak_answers) = Some name
          ∧ name ≠ EmptyString
          ∧ test_whitespace name = false.
Proof.
  apply (validated_name_is_a_word ["MIT"; "ISC"]).
  - repeat constructor; done.
  - reflexivity.
Defined.

Lemma starts_with_space_byte (c : ascii) (s : string) :
  starts_with_space (String c EmptyString) = true ->
  starts_with_space (String c s) = true.
Proof.
  destruct c as [[] [] [] [] [] [] [] []]; try discriminate; reflexivity.
Qed.

(** X10.  The validators of the short name and of the version reject
    every answer that holds a whitespace character, wherever it stands,
    each with its own message. *)
Theorem validators_reject_whitespace_anywhere (c : ascii) (s1 s2 : string) :
  starts_with_space (String c EmptyString) = true ->
  Questions.validate_shortName (s1 ++ String c s2)
  = inr "The name cannot contain whitespace"
  ∧ Questions.validate_version (s1 ++ String c s2)
    = inr "The version cannot contain whitespace".
Proof.
  intros Hc.
  assert (test_whitespace (s1 ++ String c s2) = true) as Htest.
  { induction s1 as [|d s1 IH].
    - change (EmptyString ++ String c s2) with (String c s2).
      cbn [test_whitespace]. by rewrite starts_with_space_byte.
    - change (String d s1 ++ String c s2) with (String d (s1 ++ String c s2)).
      cbn [test_whitespace]. by rewrite IH, orb_true_r. }
  unfold Questions.validate_shortName, Questions.validate_version,
    Questions.or_message.
  by rewrite Htest.
Qed.

Lemma validators_reject_whitespace_anywhere_witness :
  Questions.validate_shortName "Blue Oak"
  = inr "The name cannot contain whitespace"
  ∧ Questions.validate_version "Blue Oak"
    = inr "The version cannot contain whitespace".
Proof.
  apply (validators_reject_whitespace_anywhere " " "Blue" "Oak"). reflexivity.
Defined.

(** ** The compiled code *)

(** X11.  What the compiler returns does not matter beyond whether it
    accepts: with a compiler that accepts the same sources and fails with
    the same errors, the run is the same, exit code and world. *)
Theorem run_ignores_compiled_code (env : Env)
    (t : string -> error + BabelFileResult) (w : World) :
  (∀ source, match transform env source, t source with
             | inr _, inr _ => True
             | inl e, inl e' => e = e'
             | _, _ => False
             end) ->
  run (with_transform t env) w = run env w.
Proof.
  intros Hsame. unfold run.
  enough (main (with_transform t env) w = main env w) as -> by done.
  unfold main. cbn [with_transform argv].
  destruct (negb _); [done|].
  do 3 (apply bind_ext; intros ? ? _; cbv beta zeta).
  apply bind_ext; intros gitName ? _; cbv beta zeta.
  apply bind_ext; intros gitEmail w5 _; cbv beta zeta.
  unfold prompt. cbn [with_transform operator].
  apply bind_ext; intros answers w6 _; cbv beta zeta.
  unfold transformAsync, cc0_text. cbn [with_transform transform packaged cc0_txt].
  specialize (Hsame (index (resolve_name answers) "[object Promise]")).
  destruct (transform env _) as [e|es5], (t _) as [e'|es5']; try done.
  by subst e'.
Qed.

Lemma run_ignores_compiled_code_witness :
  let env := Sample.env Sample.mit_answers in
  let t := fun _ : string => inr {| code := EmptyString; map := None |} in
  run (with_transform t env) (Sample.world Sample.mit_text)
  = run env (Sample.world Sample.mit_text).
Proof.
  intros env t. apply (run_ignores_compiled_code env t). intros source. exact I.
Defined.

(** ** Vacant directories *)












(** ** One package after another *)






